(** * tbot: remote shell synchronisation and the machine abstraction

    A shallow embedding of [tbot/machine/shell_utils.py] (the read-to-prompt
    loop, [exec_command], [command_and_retval]) and of the [Machine] base
    class of [tbot-legacy/machine/machine.py] ([exec], [exec0]), followed by
    the properties the specification states about them.

    Python [str] values are lists of code points, Python [int] values are
    [Z], [bytes] are lists of [Byte.byte].  The transport channel is an
    interface (a type class); a scripted instance records what was sent. *)

From Stdlib Require Import Strings.String Strings.Ascii Strings.Byte.
From Stdlib Require Import List NArith ZArith Bool Lia.
From Stdlib Require Import Numbers.DecimalString.
Import ListNotations.

Set Implicit Arguments.

(** ** Python built-ins on [str] *)
Module Py.

Definition char := N.
Definition str := list char.

Definition nl : char := 10%N.
Definition cr : char := 13%N.

(** A Rocq string literal read as a Python [str] (one code point per byte). *)
Definition u (s : string) : str := map Byte.to_N (list_byte_of_string s).

(** [a == b] *)
Fixpoint str_eqb (a b : str) : bool :=
  match a, b with
  | [], [] => true
  | x :: a', y :: b' => N.eqb x y && str_eqb a' b'
  | _, _ => false
  end.

(** [len(s)] *)
Definition len (s : str) : Z := Z.of_nat (length s).

(** [c in s] for a one-character [c] *)
Definition contains (c : char) (s : str) : bool := existsb (N.eqb c) s.

(** An index of a slice brought into [0..len], as Python does it. *)
Definition clamp (n i : Z) : Z :=
  if (i <? 0)%Z then Z.max (n + i) 0 else Z.min i n.

(** [s[start:stop]]; [None] is an omitted bound. *)
Definition slice (s : str) (start stop : option Z) : str :=
  let n := len s in
  let a := match start with None => 0%Z | Some i => clamp n i end in
  let b := match stop with None => n | Some j => clamp n j end in
  firstn (Z.to_nat (b - a)) (skipn (Z.to_nat a) s).

(** [s.split(sep)] for a one-character separator *)
Fixpoint split (sep : char) (s : str) : list str :=
  match s with
  | [] => [[]]
  | c :: s' =>
      if N.eqb c sep then [] :: split sep s'
      else match split sep s' with
           | [] => [[c]]
           | w :: ws => (c :: w) :: ws
           end
  end.

(** [s.startswith(p)] *)
Fixpoint startswith (p s : str) : bool :=
  match p, s with
  | [], _ => true
  | x :: p', y :: s' => N.eqb x y && startswith p' s'
  | _ :: _, [] => false
  end.

(** [s.replace(old, new)]: occurrences of [old] are replaced from left to
    right and do not overlap.  [fuel] bounds the scan; [length s] is enough. *)
Fixpoint replace_from (fuel : nat) (old new s : str) : str :=
  match fuel with
  | O => s
  | S fuel' =>
      match s with
      | [] => []
      | c :: s' =>
          if startswith old s
          then new ++ replace_from fuel' old new (skipn (length old) s)
          else c :: replace_from fuel' old new s'
      end
  end.

Definition replace (old new s : str) : str :=
  match old with
  | [] => new ++ flat_map (fun c => c :: new) s
  | _ :: _ => replace_from (length s) old new s
  end.

(** [str.isspace] on one code point (CPython's whitespace table). *)
Definition isspace (c : char) : bool :=
  ((9 <=? c) && (c <=? 13) || (28 <=? c) && (c <=? 32)
   || (c =? 133) || (c =? 160) || (c =? 5760)
   || (8192 <=? c) && (c <=? 8202)
   || (c =? 8232) || (c =? 8233) || (c =? 8239) || (c =? 8287)
   || (c =? 12288))%N.

Fixpoint lstrip (s : str) : str :=
  match s with
  | c :: s' => if isspace c then lstrip s' else s
  | [] => []
  end.

(** [s.strip()] *)
Definition strip (s : str) : str := rev (lstrip (rev (lstrip s))).

(** [s.lower()].  Only the letters A..Z are mapped; the single use in the
    code compares the first character of the result with ['y'], and no code
    point other than ['Y'] and ['y'] lower-cases to a string starting with
    ['y']. *)
Definition lower_char (c : char) : char :=
  if ((65 <=? c) && (c <=? 90))%N then (c + 32)%N else c.

Definition lower (s : str) : str := map lower_char s.

(** *** Decoding received bytes *)

Definition is_cont (b : N) : bool := ((128 <=? b) && (b <=? 191))%N.

(** Strict UTF-8, as [bytes.decode("utf-8")]: [None] stands for
    [UnicodeDecodeError] (bad lead byte, missing continuation byte, overlong
    form, surrogate, or a code point above U+10FFFF). *)
Fixpoint utf8 (bs : list N) : option str :=
  match bs with
  | [] => Some []
  | b0 :: r0 =>
      if (b0 <? 128)%N then option_map (cons b0) (utf8 r0)
      else if ((194 <=? b0) && (b0 <=? 223))%N then
        match r0 with
        | b1 :: r1 =>
            if is_cont b1
            then option_map (cons ((b0 - 192) * 64 + (b1 - 128))%N) (utf8 r1)
            else None
        | _ => None
        end
      else if ((224 <=? b0) && (b0 <=? 239))%N then
        match r0 with
        | b1 :: b2 :: r2 =>
            if is_cont b1 && is_cont b2
               && negb ((b0 =? 224) && (b1 <? 160))%N
               && negb ((b0 =? 237) && (160 <=? b1))%N
            then option_map
                   (cons ((b0 - 224) * 4096 + (b1 - 128) * 64 + (b2 - 128))%N)
                   (utf8 r2)
            else None
        | _ => None
        end
      else if ((240 <=? b0) && (b0 <=? 244))%N then
        match r0 with
        | b1 :: b2 :: b3 :: r3 =>
            if is_cont b1 && is_cont b2 && is_cont b3
               && negb ((b0 =? 240) && (b1 <? 144))%N
               && negb ((b0 =? 244) && (144 <=? b1))%N
            then option_map
                   (cons ((b0 - 240) * 262144 + (b1 - 128) * 4096
                          + (b2 - 128) * 64 + (b3 - 128))%N)
                   (utf8 r3)
            else None
        | _ => None
        end
      else None
  end.

(** [bytes.decode("latin_1")] *)
Definition latin_1 (bs : list byte) : str := map Byte.to_N bs.

(** The [try]/[except UnicodeDecodeError] of the read loop. *)
Definition decode (bs : list byte) : str :=
  match utf8 (map Byte.to_N bs) with
  | Some s => s
  | None => latin_1 bs
  end.

End Py.

Import Py.

(** ** The fragment of Python's [re] that prompt patterns are written in

    Literals, escaped punctuation, [.], bracket sets with ranges and
    negation, groups, [|], the quantifiers [*], [+], [?] and the anchor [$].
    A pattern outside this fragment (or one [re] rejects) has no syntax tree
    here: [parse] answers [None]. *)
Module Re.

Inductive re : Type :=
| Eps
| Chr (c : char)
| Dot
| Set_ (negated : bool) (items : list (char * char))
| Cat (a b : re)
| Alt (a b : re)
| Star (a : re)
| Eol.

Definition in_items (x : char) (items : list (char * char)) : bool :=
  existsb (fun it => (fst it <=? x) && (x <=? snd it))%N items.

(** [$] without [re.MULTILINE]: the end of the string, or just before a
    newline that is the last character of the string. *)
Definition at_eol (s : str) : bool :=
  match s with
  | [] => true
  | [c] => N.eqb c nl
  | _ => false
  end.

(** Backtracking matcher in continuation style: [m r s k] holds when [r]
    matches a prefix of [s] and [k] accepts what is left. *)
Fixpoint m (r : re) (s : str) (k : str -> bool) {struct r} : bool :=
  match r with
  | Eps => k s
  | Chr c => match s with x :: s' => N.eqb x c && k s' | [] => false end
  | Dot => match s with x :: s' => negb (N.eqb x nl) && k s' | [] => false end
  | Set_ neg items =>
      match s with
      | x :: s' => xorb neg (in_items x items) && k s'
      | [] => false
      end
  | Cat a b => m a s (fun s' => m b s' k)
  | Alt a b => m a s k || m b s k
  | Star a =>
      (fix star (n : nat) (s : str) {struct n} : bool :=
         k s
         || match n with
            | O => false
            | S n' =>
                m a s (fun s' => (length s' <? length s)%nat && star n' s')
            end) (length s) s
  | Eol => at_eol s && k s
  end.

Fixpoint tails (s : str) : list str :=
  s :: match s with [] => [] | _ :: s' => tails s' end.

(** [re.search(r, buf) is not None] *)
Definition search_re (r : re) (buf : str) : bool :=
  existsb (fun s => m r s (fun _ => true)) (tails buf).

(** Some match of [r] stops at the very end of [buf]. *)
Definition ends_with_match (r : re) (buf : str) : bool :=
  existsb (fun s => m r s (fun s' => match s' with [] => true | _ => false end))
          (tails buf).

(** *** Concrete syntax *)

Definition is_alnum (c : char) : bool :=
  ((48 <=? c) && (c <=? 57) || (65 <=? c) && (c <=? 90)
   || (97 <=? c) && (c <=? 122))%N.

Definition c_bslash : char := 92%N.
Definition c_lbrack : char := 91%N.
Definition c_rbrack : char := 93%N.
Definition c_lparen : char := 40%N.
Definition c_rparen : char := 41%N.
Definition c_star : char := 42%N.
Definition c_plus : char := 43%N.
Definition c_quest : char := 63%N.
Definition c_bar : char := 124%N.
Definition c_dot : char := 46%N.
Definition c_dollar : char := 36%N.
Definition c_caret : char := 94%N.
Definition c_minus : char := 45%N.
Definition c_lbrace : char := 123%N.
Definition c_colon : char := 58%N.

(** One member of a bracket set: a character, possibly escaped. *)
Definition set_char (s : str) : option (char * str) :=
  match s with
  | [] => None
  | c :: s' =>
      if N.eqb c c_bslash then
        match s' with
        | e :: s'' => if is_alnum e then None else Some (e, s'')
        | [] => None
        end
      else Some (c, s')
  end.

(** The members of a bracket set up to the closing bracket; [first] is true
    where a closing bracket still stands for itself. *)
Fixpoint set_items (fuel : nat) (first : bool) (s : str)
  : option (list (char * char) * str) :=
  match fuel with
  | O => None
  | S fuel' =>
      match s with
      | [] => None
      | c :: s' =>
          if N.eqb c c_rbrack && negb first then Some ([], s')
          else
            match set_char s with
            | None => None
            | Some (lo, s1) =>
                match s1 with
                | d :: s2 =>
                    if N.eqb d c_minus
                       && negb (match s2 with
                                | e :: _ => N.eqb e c_rbrack
                                | [] => true
                                end)
                    then
                      match set_char s2 with
                      | None => None
                      | Some (hi, s3) =>
                          if (hi <? lo)%N then None
                          else
                            match set_items fuel' false s3 with
                            | None => None
                            | Some (its, rest) => Some ((lo, hi) :: its, rest)
                            end
                      end
                    else
                      match set_items fuel' false s1 with
                      | None => None
                      | Some (its, rest) => Some ((lo, lo) :: its, rest)
                      end
                | [] => None
                end
            end
      end
  end.

(** A quantifier, if one follows.  A second quantifier character after it
    (lazy or possessive forms, or a repeated repeat) is outside the
    fragment, and so is a quantified anchor. *)
Definition quantified (r : re) (s : str) : option (re * str) :=
  let is_q c := N.eqb c c_star || N.eqb c c_plus || N.eqb c c_quest in
  match s with
  | q :: s' =>
      if is_q q then
        match r with
        | Eol => None
        | _ =>
            match s' with
            | q2 :: _ => if is_q q2 || N.eqb q2 c_lbrace then None
                         else Some (if N.eqb q c_star then Star r
                                    else if N.eqb q c_plus then Cat r (Star r)
                                    else Alt r Eps, s')
            | [] => Some (if N.eqb q c_star then Star r
                          else if N.eqb q c_plus then Cat r (Star r)
                          else Alt r Eps, s')
            end
        end
      else if N.eqb q c_lbrace then None
      else Some (r, s)
  | [] => Some (r, s)
  end.

Fixpoint parse_alt (fuel : nat) (s : str) : option (re * str) :=
  match fuel with
  | O => None
  | S fuel' =>
      match parse_cat fuel' s with
      | None => None
      | Some (a, s1) =>
          match s1 with
          | c :: s2 =>
              if N.eqb c c_bar then
                match parse_alt fuel' s2 with
                | None => None
                | Some (b, s3) => Some (Alt a b, s3)
                end
              else Some (a, s1)
          | [] => Some (a, s1)
          end
      end
  end
with parse_cat (fuel : nat) (s : str) : option (re * str) :=
  match fuel with
  | O => None
  | S fuel' =>
      match s with
      | [] => Some (Eps, s)
      | c :: _ =>
          if N.eqb c c_bar || N.eqb c c_rparen then Some (Eps, s)
          else
            match parse_atom fuel' s with
            | None => None
            | Some (a, s1) =>
                match quantified a s1 with
                | None => None
                | Some (a', s2) =>
                    match parse_cat fuel' s2 with
                    | None => None
                    | Some (b, s3) => Some (Cat a' b, s3)
                    end
                end
            end
      end
  end
with parse_atom (fuel : nat) (s : str) : option (re * str) :=
  match fuel with
  | O => None
  | S fuel' =>
      match s with
      | [] => None
      | c :: s' =>
          if N.eqb c c_lparen then
            let body :=
              match s' with
              | q :: s'' =>
                  if N.eqb q c_quest then
                    match s'' with
                    | d :: s3 => if N.eqb d c_colon then Some s3 else None
                    | [] => None
                    end
                  else Some s'
              | [] => None
              end in
            match body with
            | None => None
            | Some b =>
                match parse_alt fuel' b with
                | Some (r, d :: rest) =>
                    if N.eqb d c_rparen then Some (r, rest) else None
                | _ => None
                end
            end
          else if N.eqb c c_lbrack then
            let (neg, s1) :=
              match s' with
              | d :: s'' => if N.eqb d c_caret then (true, s'') else (false, s')
              | [] => (false, s')
              end in
            match set_items (S (length s1)) true s1 with
            | None => None
            | Some (its, rest) => Some (Set_ neg its, rest)
            end
          else if N.eqb c c_bslash then
            match s' with
            | e :: s'' => if is_alnum e then None else Some (Chr e, s'')
            | [] => None
            end
          else if N.eqb c c_dot then Some (Dot, s')
          else if N.eqb c c_dollar then Some (Eol, s')
          else if N.eqb c c_caret || N.eqb c c_star || N.eqb c c_plus
                  || N.eqb c c_quest || N.eqb c c_lbrace || N.eqb c c_rparen
          then None
          else Some (Chr c, s')
      end
  end.

(** [re.compile(pattern)] within the fragment. *)
Definition parse (pattern : str) : option re :=
  match parse_alt (3 * length pattern + 3) pattern with
  | Some (r, []) => Some r
  | _ => None
  end.

(** [re.search(pattern, buf) is not None]; [None] when the pattern has no
    syntax tree. *)
Definition search (pattern buf : str) : option bool :=
  option_map (fun r => search_re r buf) (parse pattern).

End Re.

(** ** Exceptions and results *)

Inductive exn : Type :=
| InvalidCommand (command : str)
| InvalidChannelState
| AssertionError (msg : str)
| ValueError (text : str)
| EOFError.

(** What a call comes to: a value, a raised exception, or no answer from
    the model (the loop bound ran out, or a pattern has no syntax tree). *)
Inductive result (A : Type) : Type :=
| Ok (a : A)
| Raise (e : exn)
| Undef.

Arguments Raise {A} e.
Arguments Undef {A}.

(** ** The transport channel and the output sink *)

(** The three primitives of [paramiko.Channel] the code calls. *)
Class Channel (Chan : Type) : Type := {
  recv : N -> Chan -> list byte * Chan;
  send : str -> Chan -> Chan;
  exit_status_ready : Chan -> bool
}.

(** Modelled from the spec: [tbot.log.LogStdoutHandler] is not among the
    sources.  It is the observability sink of the specification: an event
    with the machine path, the command text and the visibility flags, a
    field for the exit code that is attached later, and the output lines
    streamed to it by [print], in order. *)
Record LogStdoutHandler : Type := {
  ev_machine : list str;
  ev_command : str;
  ev_show : bool;
  ev_show_stdout : bool;
  dct_exit_code : option Z;
  printed : list str
}.

Definition print (h : LogStdoutHandler) (line : str) : LogStdoutHandler :=
  {| ev_machine := ev_machine h; ev_command := ev_command h;
     ev_show := ev_show h; ev_show_stdout := ev_show_stdout h;
     dct_exit_code := dct_exit_code h;
     printed := printed h ++ [line] |}.

Definition set_exit_code (h : LogStdoutHandler) (rc : Z) : LogStdoutHandler :=
  {| ev_machine := ev_machine h; ev_command := ev_command h;
     ev_show := ev_show h; ev_show_stdout := ev_show_stdout h;
     dct_exit_code := Some rc;
     printed := printed h |}.

(** Modelled from the spec: [tbot.log_events.shell_command] is not among
    the sources; it emits the execution event and hands back its sink. *)
Definition shell_command (machine : list str) (command : str)
           (show show_stdout : bool) : LogStdoutHandler :=
  {| ev_machine := machine; ev_command := command;
     ev_show := show; ev_show_stdout := show_stdout;
     dct_exit_code := None; printed := [] |}.

(** *** A scripted channel

    The remote side as a script: the chunks successive [recv] calls hand
    out, each with the exit-status flag that holds once it is delivered.
    With the script used up, [recv] answers with no bytes, as paramiko does
    at end of stream.  Everything sent is logged. *)
Module Script.

Record ScriptChan : Type := {
  inbox : list (list byte * bool);
  exited : bool;
  sent : list str
}.

Fixpoint take {A : Type} (l : list A) (n : N) : list A :=
  match l with
  | [] => []
  | x :: l' => if (n =? 0)%N then [] else x :: take l' (N.pred n)
  end.

Fixpoint drop {A : Type} (l : list A) (n : N) : list A :=
  match l with
  | [] => []
  | x :: l' => if (n =? 0)%N then l else drop l' (N.pred n)
  end.

Definition script_recv (n : N) (c : ScriptChan) : list byte * ScriptChan :=
  match inbox c with
  | [] => ([], c)
  | (chunk, e) :: rest =>
      match drop chunk n with
      | [] => (take chunk n,
               {| inbox := rest; exited := exited c || e; sent := sent c |})
      | more => (take chunk n,
                 {| inbox := (more, e) :: rest; exited := exited c;
                    sent := sent c |})
      end
  end.

Definition script_send (data : str) (c : ScriptChan) : ScriptChan :=
  {| inbox := inbox c; exited := exited c; sent := sent c ++ [data] |}.

#[export] Instance script_channel : Channel ScriptChan := {
  recv := script_recv;
  send := script_send;
  exit_status_ready := exited
}.

End Script.

(** ** [tbot/machine/shell_utils.py] *)
Module ShellUtils.

(** What a call leaves behind: its result, the sink and the channel. *)
Record Outcome (Chan A : Type) : Type := {
  value : result A;
  handler_of : option LogStdoutHandler;
  chan_of : Chan
}.

(** The replacements applied to every decoded chunk. *)
Definition fix_line_endings (buf_data : str) : str :=
  replace [cr] [nl]
    (replace [cr; nl] [nl] (replace [cr; nl] [nl] buf_data)).

(** The inner [while "\n" in buf[last_newline:]] loop.  Every round moves
    [last_newline] past one newline, so [length buf] rounds are enough. *)
Fixpoint print_lines (fuel : nat) (buf : str) (last_newline : Z)
         (stdout_handler : LogStdoutHandler) : Z * LogStdoutHandler :=
  match fuel with
  | O => (last_newline, stdout_handler)
  | S fuel' =>
      if contains nl (slice buf (Some last_newline) None) then
        let line := hd [] (split nl (slice buf (Some last_newline) None)) in
        let h := if negb (last_newline =? 0)%Z
                 then print stdout_handler line else stdout_handler in
        print_lines fuel' buf (last_newline + len line + 1)%Z h
      else (last_newline, stdout_handler)
  end.

(** [expression = f"{prompt}$" if prompt_regex else "^$"] *)
Definition expression (prompt : str) (prompt_regex : bool) : str :=
  if prompt_regex then prompt ++ u "$" else u "^$".

(** The condition of the [if] that leaves the loop with [break]. *)
Definition prompt_seen (prompt : str) (prompt_regex : bool) (buf : str)
  : option bool :=
  if negb prompt_regex && str_eqb (slice buf (Some (- len prompt)%Z) None) prompt
  then Some true
  else if prompt_regex then Re.search (expression prompt prompt_regex) buf
  else Some false.

(** "Print rest of last line to make sure nothing gets lost" *)
Definition print_rest (prompt buf : str) (last_newline : Z)
           (stdout_handler : option LogStdoutHandler)
  : option LogStdoutHandler :=
  match stdout_handler with
  | Some h =>
      if negb (contains nl (slice buf (Some last_newline) None)) then
        let line := slice buf (Some last_newline) (Some (- len prompt)%Z) in
        if negb (str_eqb line []) then Some (print h line) else Some h
      else Some h
  | None => None
  end.

(** How one round of the [while True] loop ends. *)
Inductive round (Chan : Type) : Type :=
| Break (buf : str) (h : option LogStdoutHandler) (chan : Chan)
| Closed (buf : str) (h : option LogStdoutHandler) (chan : Chan)
| Again (buf : str) (last_newline : Z) (h : option LogStdoutHandler)
        (chan : Chan)
| NoAnswer (h : option LogStdoutHandler) (chan : Chan).

Section WithChannel.

Context {Chan : Type} {channel : Channel Chan}.

(** The body of the loop.  (The [oververbose] log line is not modelled.) *)
Definition read_round (prompt : str) (prompt_regex : bool)
           (buf : str) (last_newline : Z)
           (stdout_handler : option LogStdoutHandler) (chan : Chan)
  : round Chan :=
  let (raw, chan) := recv 10000000%N chan in
  let buf_data := fix_line_endings (decode raw) in
  let buf := buf ++ buf_data in
  let (last_newline, stdout_handler) :=
    match stdout_handler with
    | Some h =>
        let (l, h') := print_lines (length buf) buf last_newline h in
        (l, Some h')
    | None => (last_newline, None)
    end in
  match prompt_seen prompt prompt_regex buf with
  | None => NoAnswer stdout_handler chan
  | Some true =>
      Break buf (print_rest prompt buf last_newline stdout_handler) chan
  | Some false =>
      if str_eqb buf_data [] && exit_status_ready chan
      then Closed buf stdout_handler chan
      else Again buf last_newline stdout_handler chan
  end.

Fixpoint read_loop (fuel : nat) (prompt : str) (prompt_regex : bool)
         (buf : str) (last_newline : Z)
         (stdout_handler : option LogStdoutHandler) (chan : Chan)
  : Outcome Chan str :=
  match fuel with
  | O => {| value := Undef; handler_of := stdout_handler; chan_of := chan |}
  | S fuel' =>
      match read_round prompt prompt_regex buf last_newline stdout_handler chan
      with
      | Break b h c => {| value := Ok b; handler_of := h; chan_of := c |}
      | Closed b h c => {| value := Ok b; handler_of := h; chan_of := c |}
      | Again b l h c => read_loop fuel' prompt prompt_regex b l h c
      | NoAnswer h c => {| value := Undef; handler_of := h; chan_of := c |}
      end
  end.

(** [read_to_prompt(chan, prompt, stdout_handler, prompt_regex)]; [fuel]
    bounds the number of rounds of the loop. *)
Definition read_to_prompt (fuel : nat) (chan : Chan) (prompt : str)
           (stdout_handler : option LogStdoutHandler) (prompt_regex : bool)
  : Outcome Chan str :=
  read_loop fuel prompt prompt_regex [] 0%Z stdout_handler chan.

(** [exec_command(chan, prompt, command, stdout_handler)] *)
Definition exec_command (fuel : nat) (chan : Chan) (prompt command : str)
           (stdout_handler : option LogStdoutHandler) : Outcome Chan str :=
  if contains nl command then
    {| value := Raise (InvalidCommand command);
       handler_of := stdout_handler; chan_of := chan |}
  else if exit_status_ready chan then
    {| value := Raise InvalidChannelState;
       handler_of := stdout_handler; chan_of := chan |}
  else
    let chan := send (command ++ [nl]) chan in
    let o := read_to_prompt fuel chan prompt stdout_handler false in
    match value o with
    | Ok buf =>
        {| value := Ok (slice buf (Some (len command + 1)%Z)
                                  (Some (- len prompt)%Z));
           handler_of := handler_of o; chan_of := chan_of o |}
    | Raise e =>
        {| value := Raise e; handler_of := handler_of o; chan_of := chan_of o |}
    | Undef =>
        {| value := Undef; handler_of := handler_of o; chan_of := chan_of o |}
    end.

(** Python's built-in [int] on a [str]; [None] stands for [ValueError]. *)
Variable int : str -> option Z.

(** [command_and_retval(chan, prompt, command, stdout_handler)] *)
Definition command_and_retval (fuel : nat) (chan : Chan) (prompt command : str)
           (stdout_handler : option LogStdoutHandler)
  : Outcome Chan (Z * str) :=
  let o1 := exec_command fuel chan prompt command stdout_handler in
  match value o1 with
  | Ok stdout =>
      let o2 := exec_command fuel (chan_of o1) prompt (u "echo $?") None in
      match value o2 with
      | Ok text =>
          match int (strip text) with
          | Some retcode =>
              {| value := Ok (retcode, stdout);
                 handler_of := handler_of o1; chan_of := chan_of o2 |}
          | None =>
              {| value := Raise (ValueError (strip text));
                 handler_of := handler_of o1; chan_of := chan_of o2 |}
          end
      | Raise e =>
          {| value := Raise e; handler_of := handler_of o1;
             chan_of := chan_of o2 |}
      | Undef =>
          {| value := Undef; handler_of := handler_of o1;
             chan_of := chan_of o2 |}
      end
  | Raise e =>
      {| value := Raise e; handler_of := handler_of o1; chan_of := chan_of o1 |}
  | Undef =>
      {| value := Undef; handler_of := handler_of o1; chan_of := chan_of o1 |}
  end.

End WithChannel.

(** [int] on plain decimal text: an optional sign and ASCII digits.  The
    underscores between digits and the digits of other scripts that
    Python's [int] reads as well are not read here. *)
Fixpoint digits (acc : Z) (s : str) : option Z :=
  match s with
  | [] => Some acc
  | c :: s' =>
      if ((48 <=? c) && (c <=? 57))%N
      then digits (10 * acc + Z.of_N (c - 48)) s'
      else None
  end.

Definition int_decimal (s : str) : option Z :=
  match strip s with
  | [] => None
  | c :: s' =>
      if N.eqb c 45 then
        match s' with [] => None | _ => option_map Z.opp (digits 0 s') end
      else if N.eqb c 43 then
        match s' with [] => None | _ => digits 0 s' end
      else digits 0 (c :: s')
  end.

End ShellUtils.

(** ** [tbot-legacy/machine/machine.py]: the [Machine] base class *)
Module Machine.

(** What the operator and the log see besides the execution events. *)
Inductive console_event : Type :=
| Asked (machine command : str)
| Skipping (command : str)
| Executed (event : LogStdoutHandler).

(** The surroundings of a machine: the lines the operator will type, what
    was shown or logged so far, and the state the machine's own session
    lives in. *)
Record World (St : Type) : Type := {
  stdin : list str;
  console : list console_event;
  session : St
}.

(** A machine: the flag [_setup] binds and the abstract members every
    variant supplies. *)
Record Machine (St : Type) : Type := {
  _interactive : bool;
  unique_machine_name : str;
  _exec : str -> LogStdoutHandler -> St ->
          result (Z * str) * LogStdoutHandler * St
}.

Section WithMachine.

Variable St : Type.
Variable self : Machine St.

Definition emit (e : console_event) (w : World St) : World St :=
  {| stdin := stdin w; console := console w ++ [e]; session := session w |}.

(** The part of [exec] after the confirmation gate. *)
Definition dispatch (command : str) (log_show log_show_stdout : bool)
           (w : World St) : result (Z * str) * World St :=
  let stdout_handler :=
    shell_command (split 45%N (unique_machine_name self)) command
                  log_show log_show_stdout in
  match _exec self command stdout_handler (session w) with
  | (Ok ret, h, st) =>
      (Ok ret,
       {| stdin := stdin w;
          console := console w ++ [Executed (set_exit_code h (fst ret))];
          session := st |})
  | (Raise e, h, st) =>
      (Raise e,
       {| stdin := stdin w; console := console w ++ [Executed h];
          session := st |})
  | (Undef, h, st) =>
      (Undef,
       {| stdin := stdin w; console := console w ++ [Executed h];
          session := st |})
  end.

(** [Machine.exec(command, log_show, log_show_stdout)] *)
Definition exec (command : str) (log_show log_show_stdout : bool)
           (w : World St) : result (Z * str) * World St :=
  if _interactive self then
    match stdin w with
    | [] => (Raise EOFError, emit (Asked (unique_machine_name self) command) w)
    | answer :: rest =>
        let inp := lower answer in
        let w := emit (Asked (unique_machine_name self) command)
                      {| stdin := rest; console := console w;
                         session := session w |} in
        if negb (str_eqb inp [])
           && match inp with c :: _ => negb (N.eqb c 121) | [] => false end
        then (Ok (0%Z, []), emit (Skipping command) w)
        else dispatch command log_show log_show_stdout w
    end
  else dispatch command log_show log_show_stdout w.

(** The message of the [assert] in [exec0]. *)
Definition failed_message (command output : str) : str :=
  u "Command " ++ [34%N] ++ command ++ [34%N] ++ u " failed:" ++ [nl]
    ++ output.

(** [Machine.exec0(command, **kwargs)] *)
Definition exec0 (command : str) (log_show log_show_stdout : bool)
           (w : World St) : result str * World St :=
  match exec command log_show log_show_stdout w with
  | (Ok ret, w') =>
      if (fst ret =? 0)%Z then (Ok (snd ret), w')
      else (Raise (AssertionError (failed_message command (snd ret))), w')
  | (Raise e, w') => (Raise e, w')
  | (Undef, w') => (Undef, w')
  end.

End WithMachine.

(** A machine driven through a shell session on a channel, the way the
    variants implement [_exec]. *)
Definition shell_machine {Chan : Type} {channel : Channel Chan}
           (interactive : bool) (name prompt : str) (fuel : nat)
  : Machine Chan :=
  {| _interactive := interactive;
     unique_machine_name := name;
     _exec := fun command h chan =>
       let o := ShellUtils.command_and_retval ShellUtils.int_decimal
                  fuel chan prompt command (Some h) in
       (ShellUtils.value o,
        match ShellUtils.handler_of o with Some h' => h' | None => h end,
        ShellUtils.chan_of o) |}.

End Machine.

(** ** Vocabulary of the specification and the scenarios it names *)

Import ShellUtils Script.

(** The last [n] characters of [s] (all of [s] when it is shorter). *)
Definition last_chars (n : nat) (s : str) : str := skipn (length s - n) s.

(** [s] with its last [n] characters removed. *)
Definition without_last (n : nat) (s : str) : str := firstn (length s - n) s.

(** A result with a function applied to its value. *)
Definition map_result {A B : Type} (f : A -> B) (r : result A) : result B :=
  match r with
  | Ok a => Ok (f a)
  | Raise e => Raise e
  | Undef => Undef
  end.

(** Whether a round left the loop through the prompt check. *)
Definition is_break {Chan : Type} (r : round Chan) : bool :=
  match r with
  | Break _ _ _ => true
  | _ => false
  end.

(** The state of the loop after [k] rounds none of which left it. *)
Fixpoint rounds {Chan : Type} {channel : Channel Chan} (k : nat)
         (prompt : str) (prompt_regex : bool) (buf : str) (last_newline : Z)
         (h : option LogStdoutHandler) (chan : Chan)
  : option (str * Z * option LogStdoutHandler * Chan) :=
  match k with
  | O => Some (buf, last_newline, h, chan)
  | S k' =>
      match read_round prompt prompt_regex buf last_newline h chan with
      | Again b l h' c => rounds k' prompt prompt_regex b l h' c
      | _ => None
      end
  end.

Definition bytes (s : string) : list byte := list_byte_of_string s.

Definition LF : list byte := [x0a].

Definition open_channel (script : list (list byte * bool)) : Script.ScriptChan :=
  {| Script.inbox := script; Script.exited := false; Script.sent := [] |}.

(** The literal-prompt scenario: the echo of [ls], two lines of output,
    the prompt. *)
Definition ls_channel : Script.ScriptChan :=
  open_channel [ (bytes "ls" ++ LF, false);
                 (bytes "a.txt" ++ LF ++ bytes "b.txt" ++ LF, false);
                 (bytes "TBOT->", false) ].

(** A remote side that answers [ls] with one unterminated word and is gone. *)
Definition closing_channel : Script.ScriptChan :=
  open_channel [ (bytes "ls" ++ LF ++ bytes "out", true) ].

(** The pattern of the pattern-prompt scenario, as the program receives it
    (the specification writes it as a string literal with a doubled
    backslash). *)
Definition board_pattern : str := u "root@[a-z]+:.*\$ ".


(** A session that runs [ls] and then reports status 0. *)
Definition two_trip_channel : Script.ScriptChan :=
  open_channel [ (bytes "ls" ++ LF ++ bytes "a.txt" ++ LF ++ bytes "TBOT->",
                  false);
                 (bytes "echo $?" ++ LF ++ bytes "0" ++ LF ++ bytes "TBOT->",
                  false) ].

(** The lines of [buf] that a newline has completed, in order. *)
Definition completed_lines (buf : str) : list str := removelast (split nl buf).

(** What follows the last newline of [buf]. *)
Definition trailing (buf : str) : str := last (split nl buf) [].

(** The flush at the prompt: the trailing content without the prompt, if
    anything is left of it. *)
Definition flushed (prompt buf : str) : list str :=
  match without_last (length prompt) (trailing buf) with
  | [] => []
  | line => [line]
  end.

(** A cursor sits at the start of the buffer or just behind a newline. *)
Definition at_line_start (done : str) : Prop :=
  done = [] \/ exists d, done = d ++ [nl].

(** What holds of the loop state between rounds when a sink is there: the
    cursor is at a line start with no newline ahead, and the sink holds what
    it held at first ([base]) and the lines completed so far but the first. *)
Definition between_rounds (base : list str) (buf : str) (ln : Z)
           (h : LogStdoutHandler) : Prop :=
  exists done rest,
    buf = done ++ rest /\ ln = len done /\ at_line_start done
    /\ contains nl rest = false
    /\ printed h = base ++ tl (completed_lines done).

(** A remote side that sends part of a line and closes. *)
Definition partial_channel : ScriptChan :=
  open_channel [ (bytes "partial", true) ].

(** A session in which [false] reports status 1. *)
Definition failing_channel : ScriptChan :=
  open_channel [ (bytes "false" ++ LF ++ bytes "TBOT->", false);
                 (bytes "echo $?" ++ LF ++ bytes "1" ++ LF ++ bytes "TBOT->",
                  false) ].

(** A pattern prompt shorter than its pattern: [ab>] for [[a-z]+>]. *)
Definition pattern_sink_channel : ScriptChan :=
  open_channel [ (bytes "x" ++ LF ++ bytes "out: ab>", false) ].

Definition fresh_sink : LogStdoutHandler :=
  shell_command [u "lab"] (u "x") true true.

Definition lab (interactive : bool) : Machine.Machine ScriptChan :=
  Machine.shell_machine interactive (u "lab") (u "TBOT->") 3.

Definition operator (answers : list str) (chan : ScriptChan)
  : Machine.World ScriptChan :=
  {| Machine.stdin := answers; Machine.console := [];
     Machine.session := chan |}.

(** ** The rest of [shell_utils.py]: [setup_channel] *)
Module ShellSetup.

(** The pty primitives of [paramiko.Channel] that [setup_channel] calls
    besides those of [Channel]. *)
Class PtyChannel (Chan : Type) {channel : Channel Chan} : Type := {
  get_pty : str -> Chan -> Chan;
  resize_pty : Z -> Z -> Z -> Z -> Chan -> Chan;
  invoke_shell : Chan -> Chan
}.

(** The text sent to initialise the remote shell. *)
Definition init_text (prompt : str) : str :=
  u "unset HISTFILE" ++ [nl]
    ++ u "PROMPT_COMMAND=''" ++ [nl]
    ++ u "PS1='" ++ prompt ++ u "'" ++ [nl].

(** [setup_channel(chan, prompt)]; the buffer read is thrown away. *)
Definition setup_channel {Chan : Type} {channel : Channel Chan}
           {pty : @PtyChannel Chan channel} (fuel : nat) (chan : Chan)
           (prompt : str)
  : Outcome Chan unit :=
  let chan := get_pty (u "xterm-256color") chan in
  let chan := resize_pty 200 200 1000 1000 chan in
  let chan := invoke_shell chan in
  let chan := send (init_text prompt) chan in
  let o := read_to_prompt fuel chan prompt None false in
  {| value := match value o with
              | Ok _ => Ok tt
              | Raise e => Raise e
              | Undef => Undef
              end;
     handler_of := handler_of o; chan_of := chan_of o |}.

(** What a scripted session with a pty was asked to do, in order. *)
Inductive pty_call : Type :=
| GetPty (term : str)
| ResizePty (width height width_pixels height_pixels : Z)
| InvokeShell
| Sent (data : str).

Record PtyScript : Type := {
  wire : ScriptChan;
  calls : list pty_call
}.

Definition called (c : pty_call) (p : PtyScript) : PtyScript :=
  {| wire := wire p; calls := calls p ++ [c] |}.

#[export] Instance pty_script_channel : Channel PtyScript := {
  recv := fun n p =>
            let (data, w) := script_recv n (wire p) in
            (data, {| wire := w; calls := calls p |});
  send := fun data p =>
            {| wire := script_send data (wire p);
               calls := calls p ++ [Sent data] |};
  exit_status_ready := fun p => exited (wire p)
}.

#[export] Instance pty_script : @PtyChannel PtyScript pty_script_channel := {
  get_pty := fun term p => called (GetPty term) p;
  resize_pty := fun w h wp hp p => called (ResizePty w h wp hp) p;
  invoke_shell := fun p => called InvokeShell p
}.

End ShellSetup.

(** ** [tbot/machine/board/special.py] *)
Module Special.

Inductive Special : Type :=
| Env (name : str)
| Raw (text : str)
| _Static (string : str).

(** [resolve_string] of the three classes. *)
Definition resolve_string (self : Special) : str :=
  match self with
  | Env name => u "${" ++ name ++ u "}"
  | Raw text => text
  | _Static string => string
  end.

End Special.

(** ** The rest of [machine.py]: [_setup], [_destruct], [MachineManager] *)
Module Manager.

(** A configuration value: a number, a string or a path. *)
Inductive cfg_value : Type :=
| CInt (z : Z)
| CStr (s : str)
| CPath (p : str).

(** Modelled from the spec: [tbot.TBot] and its configuration are not among
    the sources.  The configuration is a key lookup by dotted name with a
    default value: [config key] is what [tb.config[key, None]] yields, with
    [None] for Python's [None]. *)
Record TBot : Type := {
  interactive : bool;
  config : str -> option cfg_value
}.

(** [Machine._setup(tb, previous)]: binds the flag and returns the machine. *)
Definition _setup {St : Type} (self : Machine.Machine St) (tb : TBot)
           (previous : option (Machine.Machine St)) : Machine.Machine St :=
  {| Machine._interactive := interactive tb;
     Machine.unique_machine_name := Machine.unique_machine_name self;
     Machine._exec := Machine._exec self |}.

(** [Machine._destruct(tb)]: nothing happens. *)
Definition _destruct {St : Type} (self : Machine.Machine St) (tb : TBot)
  : Machine.Machine St := self.

Definition KWARGS_LIST : list (str * str) :=
  [ (u "lab.port", u "port");
    (u "lab.user", u "username");
    (u "lab.password", u "password");
    (u "lab.keyfile", u "key_filename") ].

(** [str(z)] for an integer. *)
Definition str_of_Z (z : Z) : str := u (NilZero.string_of_int (Z.to_int z)).

(** [str(v)] for a value that may be [None]. *)
Definition py_str (v : option cfg_value) : str :=
  match v with
  | None => u "None"
  | Some (CInt z) => str_of_Z z
  | Some (CStr s) => s
  | Some (CPath p) => p
  end.

(** A Python [dict] with string keys, in insertion order. *)
Definition pydict (V : Type) : Type := list (str * V).

(** [key in d] *)
Definition has_key {V : Type} (key : str) (d : pydict V) : bool :=
  existsb (fun kv => str_eqb (fst kv) key) d.

(** [d[key] = v]: the value of a key already there is replaced in place, a
    new key goes to the end. *)
Fixpoint setitem {V : Type} (key : str) (v : V) (d : pydict V) : pydict V :=
  match d with
  | [] => [(key, v)]
  | (k, x) :: d' =>
      if str_eqb k key then (k, v) :: d' else (k, x) :: setitem key v d'
  end.

(** [d[key]] where the key is there. *)
Fixpoint getitem {V : Type} (key : str) (d : pydict V) : option V :=
  match d with
  | [] => None
  | (k, x) :: d' => if str_eqb k key then Some x else getitem key d'
  end.

(** [dict(pairs)] *)
Definition dict {V : Type} (pairs : list (str * V)) : pydict V :=
  fold_left (fun d kv => setitem (fst kv) (snd kv) d) pairs [].

(** The keyword arguments [__init__] builds for [connect]. *)
Definition connect_kwargs (tb : TBot) : pydict (option cfg_value) :=
  let kwargs :=
    dict (filter (fun arg => match snd arg with Some _ => true | None => false end)
                 (map (fun arg => (snd arg, config tb (fst arg))) KWARGS_LIST)) in
  if has_key (u "key_filename") kwargs
  then match getitem (u "key_filename") kwargs with
       | Some v => setitem (u "key_filename") (Some (CStr (py_str v))) kwargs
       | None => kwargs
       end
  else kwargs.

(** What was asked of a [paramiko.SSHClient], in order. *)
Inductive client_call : Type :=
| LoadSystemHostKeys
| Connect (hostname : cfg_value) (kwargs : pydict (option cfg_value)).

Definition SSHClient : Type := list client_call.

Record MachineManager (M : Type) : Type := {
  connection : SSHClient;
  machines : pydict M
}.

(** [MachineManager.__init__(tb, conn)].  [None] stands for a failed lookup
    of [lab.hostname], which has no default. *)
Definition MachineManager_init (M : Type) (tb : TBot) (conn : option SSHClient)
  : option (MachineManager M) :=
  match conn with
  | Some c => Some {| connection := c; machines := [] |}
  | None =>
      let fresh : SSHClient := [] in
      let client := fresh ++ [LoadSystemHostKeys] in
      let kwargs := connect_kwargs tb in
      match config tb (u "lab.hostname") with
      | Some host =>
          Some {| connection := client ++ [Connect host kwargs];
                  machines := [] |}
      | None => None
      end
  end.

End Manager.

(** ** [tc/demo_bisect.py]: the loop that adds the bad commits *)
Module DemoBisect.

(** [sep.join(items)] *)
Fixpoint join (sep : str) (items : list str) : str :=
  match items with
  | [] => []
  | [x] => x
  | x :: rest => x ++ sep ++ join sep rest
  end.

(** [range(0, n)] *)
Definition range0 (n : nat) : list Z := map Z.of_nat (seq 0 n).

(** ["very ".join(map(lambda x: "", range(0, i + 1)))] *)
Definition very (i : nat) : str :=
  join (u "very ") (map (fun _ => []) (range0 (i + 1))).

Section WithMachine.

Variable St : Type.
Variable self : Machine.Machine St.

(** [tb.config["tbot.workdir"] / "uboot-bisect-demo"], as it prints. *)
Variable repo : str.

(** Two statements one after the other: the second runs if the first
    returned. *)
Definition and_then {A B : Type}
           (first : Machine.World St -> result A * Machine.World St)
           (second : Machine.World St -> result B * Machine.World St)
           (w : Machine.World St) : result B * Machine.World St :=
  match first w with
  | (Ok _, w') => second w'
  | (Raise e, w') => (Raise e, w')
  | (Undef, w') => (Undef, w')
  end.

(** The three commands of one round of the loop. *)
Definition commit_commands (i : nat) : list str :=
  [ u "cd " ++ repo ++ u "; echo 'asdfghjkl" ++ Manager.str_of_Z (Z.of_nat i)
      ++ u "' >>common/autoboot.c";
    u "cd " ++ repo ++ u "; git add common/autoboot.c";
    u "cd " ++ repo ++ u "; git commit -m 'A " ++ very i ++ u "bad commit'" ].

(** The body of [for i in range(0, 4)]. *)
Definition bad_commit (i : nat) (w : Machine.World St)
  : result str * Machine.World St :=
  and_then
    (Machine.exec0 self (nth 0 (commit_commands i) []) true true)
    (and_then
       (Machine.exec0 self (nth 1 (commit_commands i) []) true true)
       (Machine.exec0 self (nth 2 (commit_commands i) []) true true))
    w.

(** The loop over [rounds]. *)
Fixpoint bad_commits (rounds : list nat) (w : Machine.World St)
  : result unit * Machine.World St :=
  match rounds with
  | [] => (Ok tt, w)
  | i :: rest =>
      match bad_commit i w with
      | (Ok _, w') => bad_commits rest w'
      | (Raise e, w') => (Raise e, w')
      | (Undef, w') => (Undef, w')
      end
  end.

(** [for i in range(0, 4): ...] *)
Definition add_bad_commits (w : Machine.World St)
  : result unit * Machine.World St :=
  bad_commits (seq 0 4) w.

End WithMachine.

End DemoBisect.

(** ** Further vocabulary *)

(** A sink as another left it: the event is the same, and lines were only
    added at the end. *)
Definition sink_extends (h h' : LogStdoutHandler) : Prop :=
  ev_machine h' = ev_machine h /\ ev_command h' = ev_command h
  /\ ev_show h' = ev_show h /\ ev_show_stdout h' = ev_show_stdout h
  /\ dct_exit_code h' = dct_exit_code h
  /\ exists more, printed h' = printed h ++ more.

Definition sink_kept (h h' : option LogStdoutHandler) : Prop :=
  match h, h' with
  | None, None => True
  | Some a, Some b => sink_extends a b
  | _, _ => False
  end.

(** The lines of a text: the completed ones, then what follows the last
    newline if that is not empty. *)
Definition lines_of (body : str) : list str :=
  completed_lines body ++ match trailing body with [] => [] | t => [t] end.

(** A channel whose remote side has already exited. *)
Definition closed_channel : ScriptChan :=
  {| inbox := []; exited := true; sent := [] |}.

(** The echo of a command that names the prompt, cut by the transport just
    behind that name. *)
Definition echo_rest : list (list byte * bool) :=
  [ (LF ++ bytes "TBOT->" ++ LF ++ bytes "TBOT->", false) ].

Definition echo_prompt_channel : ScriptChan :=
  open_channel ((bytes "echo TBOT->", false) :: echo_rest).

(** A session whose [ls] prints a line and an unterminated word. *)
Definition words_channel : ScriptChan :=
  open_channel [ (bytes "ls" ++ LF ++ bytes "a.txt" ++ LF ++ bytes "b", false);
                 (bytes "TBOT->", false) ].

(** A session that answers [echo $?] with no number. *)
Definition garbled_channel : ScriptChan :=
  open_channel [ (bytes "ls" ++ LF ++ bytes "TBOT->", false);
                 (bytes "echo $?" ++ LF ++ bytes "oops" ++ LF ++ bytes "TBOT->",
                  false) ].

(** A session on a pty in which the remote side exits before any prompt. *)
Definition pty_closing : ShellSetup.PtyScript :=
  {| ShellSetup.wire := open_channel [ (bytes "Last login", true) ];
     ShellSetup.calls := [] |}.

(** A lab configuration with a port and a key file, and no user or
    password. *)
Definition lab_config (key : str) : option Manager.cfg_value :=
  if str_eqb key (u "lab.hostname") then Some (Manager.CStr (u "lab1"))
  else if str_eqb key (u "lab.port") then Some (Manager.CInt 2222)
  else if str_eqb key (u "lab.keyfile")
       then Some (Manager.CPath (u "/home/tbot/.ssh/id_rsa"))
  else None.

Definition lab_tb (interactive : bool) : Manager.TBot :=
  {| Manager.interactive := interactive; Manager.config := lab_config |}.

(** The command an entry of the console is about. *)
Definition event_command (e : Machine.console_event) : str :=
  match e with
  | Machine.Asked _ command => command
  | Machine.Skipping command => command
  | Machine.Executed event => ev_command event
  end.

(** A machine, not interactive, on which every command exits with 0 and
    prints nothing. *)
Definition quiet_machine : Machine.Machine unit :=
  {| Machine._interactive := false;
     Machine.unique_machine_name := u "lab";
     Machine._exec := fun _ h st => (Ok (0%Z, []), h, st) |}.

Definition quiet_world : Machine.World unit :=
  {| Machine.stdin := []; Machine.console := []; Machine.session := tt |}.

(** * Properties *)

(** ** Facts about the built-ins *)

Lemma str_eqb_eq (a b : str) : str_eqb a b = true <-> a = b.
Proof.
  revert b; induction a as [|x a IH]; intros [|y b]; simpl;
    try (split; [discriminate | discriminate]); try tauto.
  rewrite andb_true_iff, N.eqb_eq, IH.
  split; [intros [-> ->]; reflexivity | intros E; inversion E; auto].
Qed.

Lemma str_eqb_refl (a : str) : str_eqb a a = true.
Proof. apply str_eqb_eq; reflexivity. Qed.

Lemma str_eqb_neq (a b : str) : str_eqb a b = false <-> a <> b.
Proof.
  rewrite <- str_eqb_eq. destruct (str_eqb a b); split; congruence.
Qed.

Lemma contains_In (c : char) (s : str) : contains c s = true <-> In c s.
Proof.
  unfold contains. rewrite existsb_exists. split.
  - intros [x [Hin E]]. apply N.eqb_eq in E. subst; assumption.
  - intros Hin. exists c. split; [assumption | apply N.eqb_refl].
Qed.

Lemma contains_app (c : char) (a b : str) :
  contains c (a ++ b) = contains c a || contains c b.
Proof. unfold contains. apply existsb_app. Qed.

Lemma startswith_head (x : char) (o s : str) :
  startswith (x :: o) s = true -> In x s.
Proof.
  destruct s as [|y s]; simpl; [discriminate|].
  rewrite andb_true_iff, N.eqb_eq. intros [-> _]. left; reflexivity.
Qed.

(** Where the first character of [old] does not occur, nothing is replaced. *)
Lemma replace_from_absent (x : char) (o new : str) (fuel : nat) (s : str) :
  ~ In x s -> replace_from fuel (x :: o) new s = s.
Proof.
  revert s; induction fuel as [|fuel IH]; intros s Hx; [reflexivity|].
  destruct s as [|c s]; [reflexivity|].
  cbn [replace_from].
  destruct (startswith (x :: o) (c :: s)) eqn:E.
  - exfalso. apply Hx. apply (startswith_head _ _ _ E).
  - f_equal. apply IH. intros H. apply Hx. right; assumption.
Qed.

Lemma replace_absent (x : char) (o new s : str) :
  ~ In x s -> replace (x :: o) new s = s.
Proof. intros H. unfold replace. apply replace_from_absent; assumption. Qed.

(** Replacing every [x] by another character leaves no [x]. *)
Lemma replace_from_char_gone (x y : char) (fuel : nat) (s : str) :
  x <> y -> (length s <= fuel)%nat ->
  contains x (replace_from fuel [x] [y] s) = false.
Proof.
  intros Hxy. revert s; induction fuel as [|fuel IH]; intros s Hlen.
  - destruct s; [reflexivity | simpl in Hlen; lia].
  - destruct s as [|c s]; [reflexivity|].
    cbn [replace_from startswith]. simpl in Hlen.
    destruct (N.eqb x c) eqn:E; cbn [andb skipn length app].
    + change (contains x (y :: replace_from fuel [x] [y] s))
        with (N.eqb x y || contains x (replace_from fuel [x] [y] s)).
      rewrite IH by lia.
      destruct (N.eqb x y) eqn:E2; [apply N.eqb_eq in E2; contradiction|].
      reflexivity.
    + change (contains x (c :: replace_from fuel [x] [y] s))
        with (N.eqb x c || contains x (replace_from fuel [x] [y] s)).
      rewrite IH by lia. rewrite E. reflexivity.
Qed.

Lemma fix_line_endings_no_cr (s : str) :
  contains cr (fix_line_endings s) = false.
Proof.
  unfold fix_line_endings, replace.
  apply replace_from_char_gone; [discriminate | lia].
Qed.

Lemma contains_false_not_In (c : char) (s : str) :
  contains c s = false -> ~ In c s.
Proof. intros H Hin. apply contains_In in Hin. congruence. Qed.

Lemma fix_line_endings_fixed (s : str) :
  ~ In cr s -> fix_line_endings s = s.
Proof.
  intros H. unfold fix_line_endings.
  rewrite (@replace_absent cr [nl] [nl] s H).
  rewrite (@replace_absent cr [nl] [nl] s H).
  apply (@replace_absent cr [] [nl] s H).
Qed.

Lemma In_skipn_In (n : nat) (c : char) (s : str) : In c (skipn n s) -> In c s.
Proof.
  intros H. rewrite <- (firstn_skipn n s). apply in_or_app. right; exact H.
Qed.

(** A replacement brings in no character besides those of [new]. *)
Lemma replace_from_chars (old new : str) (c : char) (fuel : nat) :
  forall s : str, In c (replace_from fuel old new s) -> In c s \/ In c new.
Proof.
  induction fuel as [|fuel IH]; intros s H; [left; exact H|].
  destruct s as [|x s]; [left; exact H|].
  cbn [replace_from] in H.
  destruct (startswith old (x :: s)).
  - apply in_app_or in H as [H|H]; [right; exact H|].
    apply IH in H as [H|H]; [left | right; exact H].
    apply (In_skipn_In _ _ _ H).
  - destruct H as [<-|H]; [left; left; reflexivity|].
    apply IH in H as [H|H]; [left; right; exact H | right; exact H].
Qed.

Lemma fix_line_endings_chars (s : str) (c : char) :
  In c (fix_line_endings s) -> c = nl \/ In c s.
Proof.
  unfold fix_line_endings, replace. intros H.
  apply replace_from_chars in H as [H|[<-|[]]]; [|left; reflexivity].
  apply replace_from_chars in H as [H|[<-|[]]]; [|left; reflexivity].
  apply replace_from_chars in H as [H|[<-|[]]]; [|left; reflexivity].
  right; exact H.
Qed.

(** *** Slices *)

Lemma slice_tail (s : str) (n : nat) :
  (0 < n)%nat ->
  slice s (Some (- Z.of_nat n)%Z) None = last_chars n s.
Proof.
  intros Hn. unfold slice, last_chars, clamp, len.
  destruct (Z.ltb_spec (- Z.of_nat n) 0); [|lia].
  replace (Z.to_nat (Z.max (Z.of_nat (length s) + - Z.of_nat n) 0))
    with (length s - n)%nat by lia.
  apply firstn_all2. rewrite length_skipn. lia.
Qed.

Lemma slice_from (s : str) (a : nat) :
  slice s (Some (Z.of_nat a)) None = skipn a s.
Proof.
  unfold slice, clamp, len.
  destruct (Z.ltb_spec (Z.of_nat a) 0); [lia|].
  destruct (Nat.le_gt_cases a (length s)) as [Hle|Hgt].
  - replace (Z.to_nat (Z.min (Z.of_nat a) (Z.of_nat (length s)))) with a by lia.
    apply firstn_all2. rewrite length_skipn. lia.
  - replace (Z.to_nat (Z.min (Z.of_nat a) (Z.of_nat (length s))))
      with (length s) by lia.
    rewrite skipn_all. rewrite skipn_all2 by lia. apply firstn_nil.
Qed.

Lemma slice_middle (s : str) (a n : nat) :
  (0 < n)%nat ->
  slice s (Some (Z.of_nat a)) (Some (- Z.of_nat n)%Z)
  = skipn a (without_last n s).
Proof.
  intros Hn. unfold slice, without_last, clamp, len.
  destruct (Z.ltb_spec (Z.of_nat a) 0); [lia|].
  destruct (Z.ltb_spec (- Z.of_nat n) 0); [|lia].
  set (L := length s).
  destruct (Nat.le_gt_cases a L) as [Hle|Hgt].
  - replace (Z.to_nat (Z.min (Z.of_nat a) (Z.of_nat L))) with a by lia.
    destruct (Nat.le_gt_cases a (L - n)) as [Hle2|Hgt2].
    + replace (Z.to_nat (Z.max (Z.of_nat L + - Z.of_nat n) 0
                         - Z.min (Z.of_nat a) (Z.of_nat L)))
        with (L - n - a)%nat by lia.
      rewrite firstn_skipn_comm. f_equal. f_equal. lia.
    + replace (Z.to_nat (Z.max (Z.of_nat L + - Z.of_nat n) 0
                         - Z.min (Z.of_nat a) (Z.of_nat L)))
        with 0%nat by lia.
      cbn [firstn]. symmetry. apply skipn_all2.
      rewrite length_firstn. lia.
  - replace (Z.to_nat (Z.min (Z.of_nat a) (Z.of_nat L))) with L by lia.
    rewrite (skipn_all2 s (n:=L)) by (unfold L; lia). rewrite firstn_nil.
    symmetry. apply skipn_all2. rewrite length_firstn. lia.
Qed.

(** With a zero stop index nothing is left of the slice. *)
Lemma slice_stop_zero (s : str) (a : option Z) : slice s a (Some 0%Z) = [].
Proof.
  unfold slice.
  assert (E : forall x : Z, (0 <= x)%Z -> Z.to_nat (clamp (len s) 0 - x) = 0%nat).
  { intros x Hx. unfold clamp, len. destruct (Z.ltb_spec 0 0); lia. }
  destruct a as [i|].
  - rewrite E; [reflexivity|]. unfold clamp, len.
    destruct (Z.ltb_spec i 0); lia.
  - rewrite E; [reflexivity | lia].
Qed.

(** *** The matcher *)






(** A more permissive continuation keeps every match. *)
Lemma m_mono (r : Re.re) :
  forall (s : str) (k k' : str -> bool),
    (forall x, k x = true -> k' x = true) ->
    Re.m r s k = true -> Re.m r s k' = true.
Proof.
  induction r as [|c| |neg items|a IHa b IHb|a IHa b IHb|a IHa|];
    intros s k k' Hk H; cbn [Re.m] in *.
  - auto.
  - destruct s as [|x s]; [discriminate|].
    apply andb_true_iff in H as [E H]. rewrite E; cbn. auto.
  - destruct s as [|x s]; [discriminate|].
    apply andb_true_iff in H as [E H]. rewrite E; cbn. auto.
  - destruct s as [|x s]; [discriminate|].
    apply andb_true_iff in H as [E H]. rewrite E; cbn. auto.
  - apply (IHa s (fun s' => Re.m b s' k)); [|exact H].
    intros x Hx. apply (IHb x k); assumption.
  - apply orb_true_iff in H as [H|H]; apply orb_true_iff;
      [left; apply (IHa s k) | right; apply (IHb s k)]; assumption.
  - revert H. generalize (length s). intros n; revert s.
    induction n as [|n IHn]; intros s H.
    + rewrite orb_false_r in *. auto.
    + apply orb_true_iff in H as [H|H]; apply orb_true_iff; [left; auto|].
      right. revert H. apply IHa. intros x Hx.
      apply andb_true_iff in Hx as [E Hx]. rewrite E; cbn. apply IHn, Hx.
  - apply andb_true_iff in H as [E H]. rewrite E; cbn. auto.
Qed.

(** A match that stops at the very end is also a match followed by [$]. *)
Lemma ends_with_match_search (r : Re.re) (buf : str) :
  Re.ends_with_match r buf = true ->
  Re.search_re (Re.Cat r Re.Eol) buf = true.
Proof.
  unfold Re.ends_with_match, Re.search_re.
  rewrite !existsb_exists. intros (s & Hin & H). exists s. split; [exact Hin|].
  cbn [Re.m]. revert H. apply m_mono.
  intros [|x l] Hx; [reflexivity | discriminate].
Qed.

(** ** The read loop and command execution *)

Section ShellProperties.

Context {Chan : Type} {channel : Channel Chan}.


Lemma prompt_seen_literal (prompt buf : str) :
  prompt <> [] ->
  prompt_seen prompt false buf = Some true
  <-> last_chars (length prompt) buf = prompt.
Proof.
  intros Hp. unfold prompt_seen, len. cbn [negb andb].
  rewrite slice_tail by (destruct prompt; [contradiction | simpl; lia]).
  destruct (str_eqb (last_chars (length prompt) buf) prompt) eqn:E.
  - apply str_eqb_eq in E. tauto.
  - apply str_eqb_neq in E. split; [discriminate | contradiction].
Qed.

Lemma prompt_seen_literal_empty (buf : str) :
  prompt_seen [] false buf = Some true <-> buf = [].
Proof.
  unfold prompt_seen. cbn [negb andb len length Z.of_nat Z.opp].
  change 0%Z with (Z.of_nat 0). rewrite slice_from. cbn [skipn].
  destruct (str_eqb buf []) eqn:E.
  - apply str_eqb_eq in E. tauto.
  - apply str_eqb_neq in E. split; [discriminate | contradiction].
Qed.


Lemma exec_command_newline (fuel : nat) (chan : Chan) (prompt command : str)
      (h : option LogStdoutHandler) :
  contains nl command = true ->
  exec_command fuel chan prompt command h
  = {| value := Raise (InvalidCommand command);
       handler_of := h; chan_of := chan |}.
Proof. intros H. unfold exec_command. rewrite H. reflexivity. Qed.

Lemma exec_command_open (fuel : nat) (chan : Chan) (prompt command : str)
      (h : option LogStdoutHandler) :
  contains nl command = false ->
  exit_status_ready chan = false ->
  exec_command fuel chan prompt command h
  = let o := read_to_prompt fuel (send (command ++ [nl]) chan) prompt h false in
    {| value := map_result
                  (fun buf => slice buf (Some (len command + 1)%Z)
                                        (Some (- len prompt)%Z))
                  (value o);
       handler_of := handler_of o; chan_of := chan_of o |}.
Proof.
  intros Hc He. unfold exec_command. rewrite Hc, He. cbv zeta.
  destruct (value (read_to_prompt _ _ _ _ _)); reflexivity.
Qed.

(** A loop that came to an answer comes to the same one with more rounds
    allowed. *)
Lemma read_loop_more (prompt : str) (prompt_regex : bool) (fuel extra : nat) :
  forall (buf : str) (ln : Z) (h : option LogStdoutHandler) (chan : Chan),
    value (read_loop fuel prompt prompt_regex buf ln h chan) <> Undef ->
    read_loop (fuel + extra) prompt prompt_regex buf ln h chan
    = read_loop fuel prompt prompt_regex buf ln h chan.
Proof.
  induction fuel as [|fuel IH]; intros buf ln h chan H.
  - exfalso. apply H. reflexivity.
  - cbn [Nat.add read_loop] in *.
    destruct (read_round prompt prompt_regex buf ln h chan); try reflexivity.
    apply IH. exact H.
Qed.

Lemma exec_command_more (fuel extra : nat) (chan : Chan) (prompt command : str)
      (h : option LogStdoutHandler) :
  value (exec_command fuel chan prompt command h) <> Undef ->
  exec_command (fuel + extra) chan prompt command h
  = exec_command fuel chan prompt command h.
Proof.
  unfold exec_command.
  destruct (contains nl command); [reflexivity|].
  destruct (exit_status_ready chan); [reflexivity|].
  intros H. unfold read_to_prompt in *. rewrite read_loop_more; [reflexivity|].
  intros E. rewrite E in H. apply H. reflexivity.
Qed.

End ShellProperties.






(** ** Line endings *)

(** C6. The replacements applied to every received chunk leave no carriage
    return in it, and every character of the result is a newline or a
    character of the chunk (so a chunk made of line endings only comes out
    as newlines only); applying them a second time changes nothing; each of
    the line endings CR LF, CR and LF comes out as a single LF. *)
Theorem fix_line_endings_normalises (s : str) :
  contains cr (fix_line_endings s) = false
  /\ forallb (fun c => N.eqb c nl || contains c s) (fix_line_endings s) = true
  /\ fix_line_endings (fix_line_endings s) = fix_line_endings s
  /\ fix_line_endings [cr; nl] = [nl]
  /\ fix_line_endings [cr] = [nl]
  /\ fix_line_endings [nl] = [nl].
Proof.
  split; [apply fix_line_endings_no_cr|].
  split.
  { apply forallb_forall. intros c Hc.
    apply fix_line_endings_chars in Hc as [->|Hc]; [reflexivity|].
    apply contains_In in Hc. rewrite Hc. apply orb_true_r. }
  split; [|repeat split; reflexivity].
  apply fix_line_endings_fixed.
  apply contains_false_not_In, fix_line_endings_no_cr.
Qed.

(** ** [exec_command] *)

(** C3. A command with a newline in it makes [exec_command] raise
    [InvalidCommand] with the channel (and the sink) exactly as they were:
    nothing has been sent, on any channel. *)
Theorem exec_command_rejects_newline
        (Chan : Type) (channel : Channel Chan) (fuel : nat) (chan : Chan)
        (prompt command : str) (h : option LogStdoutHandler) :
  In nl command ->
  exec_command fuel chan prompt command h
  = {| value := Raise (InvalidCommand command);
       handler_of := h; chan_of := chan |}.
Proof.
  intros H. apply exec_command_newline. apply contains_In. exact H.
Qed.

Lemma exec_command_rejects_newline_witness :
  In nl (u "make" ++ [nl] ++ u "reboot")
  /\ exec_command 4 ls_channel (u "TBOT->") (u "make" ++ [nl] ++ u "reboot") None
     = {| value := Raise (InvalidCommand (u "make" ++ [nl] ++ u "reboot"));
          handler_of := None; chan_of := ls_channel |}.
Proof.
  split.
  - apply contains_In. vm_compute. reflexivity.
  - apply exec_command_rejects_newline. apply contains_In. vm_compute.
    reflexivity.
Defined.

(** C1, as the code has it.  For a command without a newline and a prompt
    that is not empty, on a channel that is still open, [exec_command] is
    the synchronisation after sending the command and a newline, with the
    buffer it yields cut down: the first [len(command) + 1] characters go
    from the front and the last [len(prompt)] characters from the end.  In
    the scenario with prompt [TBOT->] the result is the two lines of
    output, once three rounds of the loop are allowed. *)
Theorem exec_command_strips_echo_and_prompt :
  (forall (Chan : Type) (channel : Channel Chan) (fuel : nat) (chan : Chan)
          (prompt command : str) (h : option LogStdoutHandler),
      contains nl command = false ->
      prompt <> [] ->
      exit_status_ready chan = false ->
      exec_command fuel chan prompt command h
      = let o := read_to_prompt fuel (send (command ++ [nl]) chan)
                                prompt h false in
        {| value := map_result
                      (fun buf => skipn (length command + 1)
                                        (without_last (length prompt) buf))
                      (value o);
           handler_of := handler_of o; chan_of := chan_of o |})
  /\ (forall extra : nat,
         value (exec_command (3 + extra) ls_channel (u "TBOT->") (u "ls") None)
         = Ok (u "a.txt" ++ [nl] ++ u "b.txt" ++ [nl])).
Proof.
  split.
  2:{ intros extra. rewrite exec_command_more; [vm_compute; reflexivity|].
      vm_compute. discriminate. }
  intros Chan channel fuel chan prompt command h Hc Hp He.
  rewrite exec_command_open by assumption. cbv zeta.
  f_equal. destruct (value _) as [buf| |]; try reflexivity.
  cbn [map_result]. f_equal. unfold len.
  replace (Z.of_nat (length command) + 1)%Z
    with (Z.of_nat (length command + 1)) by lia.
  apply slice_middle. destruct prompt; [contradiction | simpl; lia].
Qed.

Lemma exec_command_strips_echo_and_prompt_witness :
  exec_command 3 ls_channel (u "TBOT->") (u "ls") None
  = {| value := Ok (u "a.txt" ++ [nl] ++ u "b.txt" ++ [nl]);
       handler_of := None;
       chan_of := {| Script.inbox := []; Script.exited := false;
                     Script.sent := [u "ls" ++ [nl]] |} |}.
Proof.
  rewrite (proj1 exec_command_strips_echo_and_prompt
                 Script.ScriptChan Script.script_channel 3 ls_channel
                 (u "TBOT->") (u "ls") None);
    [vm_compute; reflexivity
    | vm_compute; reflexivity
    | discriminate
    | vm_compute; reflexivity].
Defined.

(** With an empty prompt the two readings part: the remote side closes
    after [ls] and the word [out], the buffer comes back whole, removing
    three characters from its front and none from its end leaves [out], and
    [exec_command] returns the empty string. *)
Lemma exec_command_empty_prompt :
  contains nl (u "ls") = false
  /\ exit_status_ready closing_channel = false
  /\ value (read_to_prompt 2 (send (u "ls" ++ [nl]) closing_channel)
                           [] None false)
     = Ok (u "ls" ++ [nl] ++ u "out")
  /\ skipn (length (u "ls") + 1)
           (without_last (length (@nil char)) (u "ls" ++ [nl] ++ u "out"))
     = u "out"
  /\ value (exec_command 2 closing_channel [] (u "ls") None) = Ok [].
Proof. repeat split; vm_compute; reflexivity. Qed.

(** ** The prompt check of [read_to_prompt] *)




(** C10. In pattern mode the check passes on a buffer that ends in a
    newline after the prompt text, although no match of the prompt pattern
    stops at the end of that buffer: [$] also holds just before a final
    newline.  Whenever a match of the pattern does stop at the end of the
    buffer, the pattern followed by [$] is found. *)
Theorem pattern_prompt_before_final_newline :
  exists (buf : str) (r : Re.re),
    last buf 0%N = nl
    /\ Re.parse board_pattern = Some r
    /\ Re.ends_with_match r buf = false
    /\ prompt_seen board_pattern true buf = Some true
    /\ is_break (read_round board_pattern true [] 0 None
                   (open_channel [(bytes "root@board:/ $ " ++ LF, false)]))
       = true
    /\ Re.at_eol [nl] = true
    /\ (forall (r' : Re.re) (b : str),
           Re.ends_with_match r' b = true ->
           Re.search_re (Re.Cat r' Re.Eol) b = true).
Proof.
  exists (u "root@board:/ $ " ++ [nl]).
  destruct (Re.parse board_pattern) as [r|] eqn:E;
    [|vm_compute in E; discriminate].
  exists r. split; [reflexivity|]. split; [reflexivity|].
  split; [vm_compute in E; inversion E; subst r; vm_compute; reflexivity|].
  split; [vm_compute; reflexivity|].
  split; [vm_compute; reflexivity|].
  split; [reflexivity|].
  intros r' b. apply ends_with_match_search.
Qed.

Lemma pattern_prompt_before_final_newline_witness :
  Re.search_re (Re.Cat (Re.Chr 62%N) Re.Eol) (u "TBOT->") = true.
Proof.
  destruct pattern_prompt_before_final_newline
    as (_ & _ & _ & _ & _ & _ & _ & _ & H).
  apply H. vm_compute. reflexivity.
Defined.

(** ** The closed channel *)

Section ClosedChannel.

Context {Chan : Type} {channel : Channel Chan}.

Lemma read_loop_closed (prompt : str) (prompt_regex : bool) (k extra : nat) :
  forall (b0 : str) (l0 : Z) (h0 : option LogStdoutHandler) (c0 : Chan)
         (buf : str) (ln : Z) (h' : option LogStdoutHandler)
         (chan' chan'' : Chan),
    rounds k prompt prompt_regex b0 l0 h0 c0 = Some (buf, ln, h', chan') ->
    recv 10000000%N chan' = ([], chan'') ->
    exit_status_ready chan'' = true ->
    prompt_seen prompt prompt_regex buf = Some false ->
    let o := read_loop (k + 1 + extra) prompt prompt_regex b0 l0 h0 c0 in
    value o = Ok buf /\ chan_of o = chan''.
Proof.
  induction k as [|k IH];
    intros b0 l0 h0 c0 buf ln h' chan' chan'' Hk Hrecv Hexit Hseen.
  - cbn [rounds] in Hk. inversion Hk; subst; clear Hk.
    cbn [Nat.add read_loop]. unfold read_round. rewrite Hrecv.
    change (fix_line_endings (decode [])) with (@nil char).
    rewrite app_nil_r.
    destruct h' as [h|].
    + destruct (print_lines (length buf) buf ln h) as [l hh].
      rewrite Hseen. cbn [str_eqb andb]. rewrite Hexit. cbn. auto.
    + rewrite Hseen. cbn [str_eqb andb]. rewrite Hexit. cbn. auto.
  - cbn [rounds] in Hk. cbn [Nat.add read_loop].
    destruct (read_round prompt prompt_regex b0 l0 h0 c0)
      as [? ? ?|? ? ?|b l h c|? ?]; try discriminate.
    apply (IH b l h c buf ln h' chan' chan''); assumption.
Qed.

End ClosedChannel.

(** C8. When, after any number of rounds that did not leave the loop, a
    read yields no bytes, the channel reports that the exit status is ready
    and the prompt check fails on the buffer, [read_to_prompt] returns that
    buffer as its value, and the channel is as that last read left it. *)
Theorem read_to_prompt_returns_on_closed_channel
        (Chan : Type) (channel : Channel Chan) (k extra : nat)
        (prompt : str) (prompt_regex : bool) (h : option LogStdoutHandler)
        (chan : Chan) (buf : str) (ln : Z) (h' : option LogStdoutHandler)
        (chan' chan'' : Chan) :
  rounds k prompt prompt_regex [] 0 h chan = Some (buf, ln, h', chan') ->
  recv 10000000%N chan' = ([], chan'') ->
  exit_status_ready chan'' = true ->
  prompt_seen prompt prompt_regex buf = Some false ->
  value (read_to_prompt (k + 1 + extra) chan prompt h prompt_regex) = Ok buf
  /\ chan_of (read_to_prompt (k + 1 + extra) chan prompt h prompt_regex)
     = chan''.
Proof.
  intros Hk Hrecv Hexit Hseen. unfold read_to_prompt.
  exact (read_loop_closed prompt prompt_regex k extra [] 0%Z h chan
                          Hk Hrecv Hexit Hseen).
Qed.

Lemma read_to_prompt_returns_on_closed_channel_witness :
  value (read_to_prompt (1 + 1 + 5) partial_channel (u "TBOT->") None false)
  = Ok (u "partial")
  /\ chan_of (read_to_prompt (1 + 1 + 5) partial_channel (u "TBOT->") None false)
     = {| inbox := []; exited := true; sent := [] |}.
Proof.
  apply (@read_to_prompt_returns_on_closed_channel
           ScriptChan script_channel 1 5 (u "TBOT->") false None
           partial_channel (u "partial") 0%Z None
           {| inbox := []; exited := true; sent := [] |}
           {| inbox := []; exited := true; sent := [] |});
    vm_compute; reflexivity.
Defined.

(** ** [command_and_retval] *)

Lemma script_recv_sent (n : N) (c : ScriptChan) :
  sent (snd (script_recv n c)) = sent c.
Proof.
  unfold script_recv. destruct (inbox c) as [|[chunk e] rest]; [reflexivity|].
  destruct (drop chunk n); reflexivity.
Qed.

Lemma read_round_sent (prompt : str) (prompt_regex : bool) (buf : str)
      (ln : Z) (h : option LogStdoutHandler) (c : ScriptChan) :
  match read_round prompt prompt_regex buf ln h c with
  | Break _ _ c' | Closed _ _ c' | Again _ _ _ c' | NoAnswer _ c' =>
      sent c' = sent c
  end.
Proof.
  unfold read_round. cbn [recv script_channel].
  pose proof (script_recv_sent 10000000 c) as Hs.
  destruct (script_recv 10000000 c) as [raw c']. cbn [snd] in Hs.
  destruct h as [h|].
  - destruct (print_lines _ _ ln h) as [l h'].
    destruct (prompt_seen _ _ _) as [[|]|]; try exact Hs.
    destruct (_ && _); exact Hs.
  - destruct (prompt_seen _ _ _) as [[|]|]; try exact Hs.
    destruct (_ && _); exact Hs.
Qed.

(** Reading sends nothing. *)
Lemma read_loop_sent (prompt : str) (prompt_regex : bool) (fuel : nat) :
  forall (buf : str) (ln : Z) (h : option LogStdoutHandler) (c : ScriptChan),
    sent (chan_of (read_loop fuel prompt prompt_regex buf ln h c)) = sent c.
Proof.
  induction fuel as [|fuel IH]; intros buf ln h c; [reflexivity|].
  cbn [read_loop].
  pose proof (read_round_sent prompt prompt_regex buf ln h c) as Hs.
  destruct (read_round prompt prompt_regex buf ln h c)
    as [? ? c'|? ? c'|b l h' c'|? c']; cbn [chan_of]; try exact Hs.
  rewrite IH. exact Hs.
Qed.

(** A command that came back was sent once, with its newline. *)
Lemma exec_command_sent (fuel : nat) (c : ScriptChan) (prompt command : str)
      (h : option LogStdoutHandler) (out : str) :
  value (exec_command fuel c prompt command h) = Ok out ->
  sent (chan_of (exec_command fuel c prompt command h))
  = sent c ++ [command ++ [nl]].
Proof.
  unfold exec_command.
  destruct (contains nl command); [discriminate|].
  destruct (exit_status_ready c); [discriminate|].
  intros _.
  assert (E : sent (chan_of (read_to_prompt fuel (send (command ++ [nl]) c)
                                            prompt h false))
              = sent c ++ [command ++ [nl]]).
  { unfold read_to_prompt. rewrite read_loop_sent. reflexivity. }
  destruct (value (read_to_prompt _ _ _ _ _)); exact E.
Qed.

(** A pair comes back only by way of both round trips. *)
Lemma command_and_retval_inv
      (int : str -> option Z) (fuel : nat) (chan : ScriptChan)
      (prompt command : str) (h : option LogStdoutHandler)
      (retcode : Z) (out : str) :
  value (command_and_retval int fuel chan prompt command h)
  = Ok (retcode, out) ->
  exists text,
    value (exec_command fuel chan prompt command h) = Ok out
    /\ value (exec_command fuel
                (chan_of (exec_command fuel chan prompt command h))
                prompt (u "echo $?") None) = Ok text
    /\ int (strip text) = Some retcode
    /\ sent (chan_of (command_and_retval int fuel chan prompt command h))
       = sent chan ++ [command ++ [nl]; u "echo $?" ++ [nl]].
Proof.
  unfold command_and_retval.
  destruct (value (exec_command fuel chan prompt command h)) as [o1| |] eqn:E1;
    try discriminate.
  destruct (value (exec_command fuel _ prompt (u "echo $?") None))
    as [text| |] eqn:E2; try discriminate.
  destruct (int (strip text)) as [rc|] eqn:E3; try discriminate.
  cbn [value chan_of]. intros H. inversion H; subst. exists text.
  repeat split; try reflexivity; try assumption.
  rewrite (exec_command_sent _ _ _ _ _ E2), (exec_command_sent _ _ _ _ _ E1).
  rewrite <- app_assoc. reflexivity.
Qed.

(** C5, as the code has it.  For a command without a newline, on a
    channel that is open when the call starts and still open after the
    first synchronisation: when the synchronisation after the command (with
    the caller's sink) and the one after [echo $?] (with no sink) both
    return, and the stripped output of [echo $?] parses as an integer,
    [command_and_retval] returns that integer paired with the output of
    the command, which is what [exec_command] returns for it; the sink is
    the one the first synchronisation left, and exactly two things were
    sent, the command and [echo $?], each with its newline, in that
    order. *)
Theorem command_and_retval_two_round_trips
        (int : str -> option Z) (fuel : nat) (chan : ScriptChan)
        (prompt command : str) (h h1 h2 : option LogStdoutHandler)
        (buf1 buf2 : str) (c1 c2 : ScriptChan) (retcode : Z) :
  contains nl command = false ->
  exit_status_ready chan = false ->
  read_to_prompt fuel (send (command ++ [nl]) chan) prompt h false
  = {| value := Ok buf1; handler_of := h1; chan_of := c1 |} ->
  exit_status_ready c1 = false ->
  read_to_prompt fuel (send (u "echo $?" ++ [nl]) c1) prompt None false
  = {| value := Ok buf2; handler_of := h2; chan_of := c2 |} ->
  int (strip (slice buf2 (Some (len (u "echo $?") + 1)%Z)
                         (Some (- len prompt)%Z))) = Some retcode ->
  command_and_retval int fuel chan prompt command h
  = {| value := Ok (retcode,
                    slice buf1 (Some (len command + 1)%Z)
                               (Some (- len prompt)%Z));
       handler_of := h1; chan_of := c2 |}
  /\ value (exec_command fuel chan prompt command h)
     = Ok (slice buf1 (Some (len command + 1)%Z) (Some (- len prompt)%Z))
  /\ sent c2 = sent chan ++ [command ++ [nl]; u "echo $?" ++ [nl]].
Proof.
  intros Hc He1 H1 He2 H2 Hint.
  assert (X1 : exec_command fuel chan prompt command h
               = {| value := Ok (slice buf1 (Some (len command + 1)%Z)
                                            (Some (- len prompt)%Z));
                    handler_of := h1; chan_of := c1 |}).
  { rewrite exec_command_open by assumption. cbv zeta. rewrite H1.
    reflexivity. }
  assert (X2 : exec_command fuel c1 prompt (u "echo $?") None
               = {| value := Ok (slice buf2 (Some (len (u "echo $?") + 1)%Z)
                                            (Some (- len prompt)%Z));
                    handler_of := h2; chan_of := c2 |}).
  { rewrite exec_command_open by (try assumption; reflexivity).
    cbv zeta. rewrite H2. reflexivity. }
  split; [|split].
  - unfold command_and_retval. rewrite X1. cbn [value chan_of handler_of].
    rewrite X2. cbn [value chan_of handler_of]. rewrite Hint. reflexivity.
  - rewrite X1. reflexivity.
  - pose proof (@exec_command_sent fuel chan prompt command h _
                  (f_equal (@value _ _) X1)) as S1.
    pose proof (@exec_command_sent fuel c1 prompt (u "echo $?") None _
                  (f_equal (@value _ _) X2)) as S2.
    rewrite X1 in S1. rewrite X2 in S2. cbn [chan_of] in S1, S2.
    rewrite S2, S1, <- app_assoc. reflexivity.
Qed.

Lemma command_and_retval_two_round_trips_witness :
  command_and_retval int_decimal 3 two_trip_channel (u "TBOT->") (u "ls")
                     (Some fresh_sink)
  = {| value := Ok (0%Z,
                    slice (u "ls" ++ [nl] ++ u "a.txt" ++ [nl] ++ u "TBOT->")
                          (Some (len (u "ls") + 1)%Z)
                          (Some (- len (u "TBOT->"))%Z));
       handler_of := Some (print fresh_sink (u "a.txt"));
       chan_of := {| inbox := []; exited := false;
                     sent := [u "ls" ++ [nl]; u "echo $?" ++ [nl]] |} |}
  /\ value (exec_command 3 two_trip_channel (u "TBOT->") (u "ls")
                         (Some fresh_sink))
     = Ok (slice (u "ls" ++ [nl] ++ u "a.txt" ++ [nl] ++ u "TBOT->")
                 (Some (len (u "ls") + 1)%Z) (Some (- len (u "TBOT->"))%Z))
  /\ sent {| inbox := []; exited := false;
             sent := [u "ls" ++ [nl]; u "echo $?" ++ [nl]] |}
     = sent two_trip_channel ++ [u "ls" ++ [nl]; u "echo $?" ++ [nl]].
Proof.
  apply (@command_and_retval_two_round_trips
           int_decimal 3 two_trip_channel (u "TBOT->") (u "ls")
           (Some fresh_sink) (Some (print fresh_sink (u "a.txt"))) None
           (u "ls" ++ [nl] ++ u "a.txt" ++ [nl] ++ u "TBOT->")
           (u "echo $?" ++ [nl] ++ u "0" ++ [nl] ++ u "TBOT->")
           {| inbox := [(bytes "echo $?" ++ LF ++ bytes "0" ++ LF
                               ++ bytes "TBOT->", false)];
              exited := false; sent := [u "ls" ++ [nl]] |});
    vm_compute; reflexivity.
Defined.

(** The remote side exits while the command runs: the first
    synchronisation returns what it has, the channel is then closed, and
    the status query is refused before it is sent.  One command went out,
    and the call raises [InvalidChannelState]. *)
Lemma command_and_retval_one_round_trip :
  contains nl (u "ls") = false
  /\ value (command_and_retval int_decimal 3 closing_channel (u "TBOT->")
                               (u "ls") None)
     = Raise InvalidChannelState
  /\ sent (chan_of (command_and_retval int_decimal 3 closing_channel
                                       (u "TBOT->") (u "ls") None))
     = [u "ls" ++ [nl]].
Proof. repeat split; vm_compute; reflexivity. Qed.

(** ** The machine *)

Lemma lower_char_y (c : char) :
  N.eqb (lower_char c) 121 = N.eqb c 121 || N.eqb c 89.
Proof.
  unfold lower_char.
  destruct (N.leb_spec 65 c); destruct (N.leb_spec c 90); cbn [andb];
    destruct (N.eqb_spec c 121); destruct (N.eqb_spec c 89); cbn [orb];
    try reflexivity; try lia;
    try (apply N.eqb_neq; lia); try (apply N.eqb_eq; lia).
Qed.

(** C4, as the code has it.  In interactive mode an answer that is not
    empty and starts with neither [y] nor [Y] skips the command: [exec]
    returns [(0, "")], the session is untouched and nothing but the
    question and the skip message was emitted.  The empty answer, like one
    starting with [y] or [Y], goes on to dispatch the command. *)
Theorem exec_interactive_gate
        (St : Type) (self : Machine.Machine St) (command : str)
        (log_show log_show_stdout : bool) (w : Machine.World St) :
  Machine._interactive self = true ->
  (forall (c : char) (answer : str) (rest : list str),
      Machine.stdin w = (c :: answer) :: rest ->
      c <> 121%N -> c <> 89%N ->
      Machine.exec self command log_show log_show_stdout w
      = (Ok (0%Z, []),
         {| Machine.stdin := rest;
            Machine.console :=
              Machine.console w
                ++ [Machine.Asked (Machine.unique_machine_name self) command;
                    Machine.Skipping command];
            Machine.session := Machine.session w |}))
  /\ (forall (answer : str) (rest : list str),
         Machine.stdin w = answer :: rest ->
         answer = [] \/ (exists t, answer = 121%N :: t)
         \/ (exists t, answer = 89%N :: t) ->
         Machine.exec self command log_show log_show_stdout w
         = Machine.dispatch self command log_show log_show_stdout
             {| Machine.stdin := rest;
                Machine.console :=
                  Machine.console w
                    ++ [Machine.Asked (Machine.unique_machine_name self)
                                      command];
                Machine.session := Machine.session w |}).
Proof.
  intros Hi. split.
  - intros c answer rest Hin Hy HY. unfold Machine.exec. rewrite Hi, Hin.
    cbn [lower map str_eqb negb andb].
    rewrite lower_char_y.
    destruct (N.eqb_spec c 121); [contradiction|].
    destruct (N.eqb_spec c 89); [contradiction|].
    cbn [orb negb]. unfold Machine.emit. cbn.
    rewrite <- app_assoc. reflexivity.
  - intros answer rest Hin Hcases. unfold Machine.exec. rewrite Hi, Hin.
    destruct Hcases as [->|[[t ->]|[t ->]]]; reflexivity.
Qed.

Lemma exec_interactive_gate_witness :
  Machine.exec (lab true) (u "ls") true true (operator [u "n"] two_trip_channel)
  = (Ok (0%Z, []),
     {| Machine.stdin := [];
        Machine.console := [Machine.Asked (u "lab") (u "ls");
                            Machine.Skipping (u "ls")];
        Machine.session := two_trip_channel |}).
Proof.
  apply (proj1 (@exec_interactive_gate
                  ScriptChan (lab true) (u "ls") true true
                  (operator [u "n"] two_trip_channel) eq_refl)
               110%N [] []).
  - reflexivity.
  - discriminate.
  - discriminate.
Defined.

(** The empty answer: the command is carried out. *)
Lemma exec_empty_answer_runs :
  Machine._interactive (lab true) = true
  /\ fst (Machine.exec (lab true) (u "ls") true true
                       (operator [[]] two_trip_channel))
     = Ok (0%Z, u "a.txt" ++ [nl])
  /\ sent (Machine.session
             (snd (Machine.exec (lab true) (u "ls") true true
                                (operator [[]] two_trip_channel))))
     = [u "ls" ++ [nl]; u "echo $?" ++ [nl]].
Proof. repeat split; vm_compute; reflexivity. Qed.

(** C9. When [exec] returns an exit code and an output, [exec0] returns
    that output if the code is zero, and otherwise fails its assertion with
    a message that holds the command text and the output. *)
Theorem exec0_checks_exit_code
        (St : Type) (self : Machine.Machine St) (command : str)
        (log_show log_show_stdout : bool) (w w' : Machine.World St)
        (rc : Z) (out : str) :
  Machine.exec self command log_show log_show_stdout w = (Ok (rc, out), w') ->
  (rc = 0%Z ->
   Machine.exec0 self command log_show log_show_stdout w = (Ok out, w'))
  /\ (rc <> 0%Z ->
      Machine.exec0 self command log_show log_show_stdout w
      = (Raise (AssertionError
                  (u "Command " ++ [34%N] ++ command ++ [34%N]
                     ++ u " failed:" ++ [nl] ++ out)), w'))
  /\ ((exists msg,
          fst (Machine.exec0 self command log_show log_show_stdout w)
          = Raise (AssertionError msg))
      <-> rc <> 0%Z).
Proof.
  intros H. unfold Machine.exec0. rewrite H. cbn [fst snd].
  destruct (Z.eqb_spec rc 0) as [E|E].
  - split; [reflexivity|]. split; [contradiction|].
    cbn [fst]. split; [intros [msg Hm]; discriminate | contradiction].
  - split; [contradiction|]. split; [reflexivity|].
    cbn [fst]. split; [intros _; exact E|].
    intros _. eexists. reflexivity.
Qed.

Lemma exec0_checks_exit_code_witness :
  Machine.exec0 (lab false) (u "false") true true (operator [] failing_channel)
  = (Raise (AssertionError
              (u "Command " ++ [34%N] ++ u "false" ++ [34%N]
                 ++ u " failed:" ++ [nl] ++ [])),
     snd (Machine.exec (lab false) (u "false") true true
                       (operator [] failing_channel))).
Proof.
  refine (proj1 (proj2 (@exec0_checks_exit_code
                          ScriptChan (lab false) (u "false") true true
                          (operator [] failing_channel) _ 1%Z [] _)) _).
  - vm_compute. reflexivity.
  - discriminate.
Defined.

(** ** The sink *)

Lemma split_cons (sep : char) (s : str) : exists w ws, split sep s = w :: ws.
Proof.
  induction s as [|c s [w [ws IH]]]; simpl; [eauto|].
  destruct (N.eqb c sep); [eauto|]. rewrite IH. eauto.
Qed.

Lemma split_app_sep (sep : char) (a b : str) :
  split sep (a ++ sep :: b) = split sep a ++ split sep b.
Proof.
  induction a as [|c a IH]; simpl.
  - rewrite N.eqb_refl. reflexivity.
  - destruct (N.eqb c sep); [rewrite IH; reflexivity|].
    rewrite IH. destruct (split_cons sep a) as [w [ws ->]]. reflexivity.
Qed.

Lemma split_absent (sep : char) (a : str) :
  contains sep a = false -> split sep a = [a].
Proof.
  induction a as [|c a IH]; simpl; [reflexivity|].
  intros H. apply orb_false_iff in H as [Hc Ha].
  rewrite N.eqb_sym, Hc. rewrite (IH Ha). reflexivity.
Qed.

Lemma contains_first (c : char) (s : str) :
  contains c s = true ->
  exists a b, s = a ++ c :: b /\ contains c a = false.
Proof.
  induction s as [|x s IH]; simpl; [discriminate|].
  destruct (N.eqb_spec c x) as [<-|Hne]; cbn [orb].
  - intros _. exists [], s. auto.
  - intros H. destruct (IH H) as (a & b & -> & Ha).
    exists (x :: a), b. split; [reflexivity|].
    simpl. apply N.eqb_neq in Hne. rewrite Hne, Ha. reflexivity.
Qed.

Lemma completed_lines_nl (a : str) : completed_lines (a ++ [nl]) = split nl a.
Proof.
  unfold completed_lines. rewrite split_app_sep. cbn [split].
  apply removelast_last.
Qed.

Lemma completed_lines_absent (a : str) :
  contains nl a = false -> completed_lines a = [].
Proof. intros H. unfold completed_lines. rewrite split_absent; auto. Qed.

Lemma completed_lines_app (done rest : str) :
  at_line_start done ->
  completed_lines (done ++ rest) = completed_lines done ++ completed_lines rest.
Proof.
  intros [->|[d ->]]; [reflexivity|].
  rewrite completed_lines_nl. unfold completed_lines.
  rewrite <- app_assoc. cbn [app]. rewrite split_app_sep.
  destruct (split_cons nl rest) as [w [ws E]].
  apply removelast_app. rewrite E. discriminate.
Qed.

Lemma trailing_app (done rest : str) :
  at_line_start done -> contains nl rest = false ->
  trailing (done ++ rest) = rest.
Proof.
  intros [->|[d ->]] H; unfold trailing.
  - cbn [app]. rewrite split_absent by assumption. reflexivity.
  - rewrite <- app_assoc. cbn [app]. rewrite split_app_sep.
    rewrite (@split_absent nl rest H). apply last_last.
Qed.

Lemma slice_cursor (done rest : str) :
  slice (done ++ rest) (Some (len done)) None = rest.
Proof.
  unfold len. rewrite slice_from. rewrite skipn_app.
  rewrite skipn_all, Nat.sub_diag. reflexivity.
Qed.

Lemma cursor_zero (done : str) : (len done =? 0)%Z = true <-> done = [].
Proof.
  unfold len. destruct done as [|c done].
  - split; reflexivity.
  - split; [|discriminate]. intros H. apply Z.eqb_eq in H.
    cbn [length] in H. lia.
Qed.

(** The inner loop: from a cursor at a line start it prints the lines
    completed behind the cursor, the first line of the buffer apart, and
    stops at a line start with no newline ahead. *)
Lemma print_lines_spec (base : list str) (fuel : nat) :
  forall (done rest : str) (h : LogStdoutHandler),
    at_line_start done ->
    (length rest <= fuel)%nat ->
    printed h = base ++ tl (completed_lines done) ->
    exists done' rest' h',
      print_lines fuel (done ++ rest) (len done) h = (len done', h')
      /\ done ++ rest = done' ++ rest'
      /\ at_line_start done'
      /\ contains nl rest' = false
      /\ printed h' = base ++ tl (completed_lines done').
Proof.
  induction fuel as [|fuel IH]; intros done rest h Hd Hlen Hp.
  - destruct rest; [|simpl in Hlen; lia].
    exists done, [], h. cbn [print_lines]. auto.
  - cbn [print_lines]. rewrite slice_cursor.
    destruct (contains nl rest) eqn:Hnl.
    + destruct (@contains_first nl rest Hnl) as (line & rest' & -> & Hline).
      rewrite split_app_sep, (@split_absent nl line Hline). cbn [app hd].
      set (h2 := if negb (len done =? 0)%Z then print h line else h).
      assert (Hd2 : at_line_start (done ++ line ++ [nl])).
      { right. exists (done ++ line). rewrite app_assoc. reflexivity. }
      assert (Hp2 : printed h2 = base ++ tl (completed_lines (done ++ line ++ [nl]))).
      { rewrite (@completed_lines_app done (line ++ [nl]) Hd), completed_lines_nl.
        rewrite (@split_absent nl line Hline). subst h2.
        destruct Hd as [->|[d ->]].
        - cbn. rewrite Hp. reflexivity.
        - replace (len (d ++ [nl]) =? 0)%Z with false.
          2:{ symmetry. apply not_true_iff_false. rewrite cursor_zero.
              destruct d; discriminate. }
          cbn [negb print printed]. rewrite Hp, completed_lines_nl.
          destruct (split_cons nl d) as [w [ws ->]]. cbn [tl app].
          rewrite <- app_assoc. reflexivity. }
      assert (Hlen2 : (length rest' <= fuel)%nat).
      { rewrite length_app in Hlen. simpl in Hlen. lia. }
      destruct (IH (done ++ line ++ [nl]) rest' h2 Hd2 Hlen2 Hp2)
        as (done' & rest2 & h' & Hrun & Heq & Hd' & Hr & Hp').
      exists done', rest2, h'.
      replace (done ++ line ++ nl :: rest') with ((done ++ line ++ [nl]) ++ rest')
        by (rewrite <- !app_assoc; reflexivity).
      replace (len done + len line + 1)%Z with (len (done ++ line ++ [nl])).
      2:{ unfold len. rewrite !length_app. simpl. lia. }
      auto.
    + exists done, rest, h. auto.
Qed.

Lemma without_last_cursor (n : nat) (done rest : str) :
  skipn (length done) (without_last n (done ++ rest)) = without_last n rest.
Proof.
  unfold without_last. rewrite length_app.
  destruct (Nat.le_gt_cases n (length rest)) as [Hle|Hgt].
  - replace (length done + length rest - n)%nat
      with (length done + (length rest - n))%nat by lia.
    rewrite firstn_app_2. rewrite skipn_app, skipn_all, Nat.sub_diag.
    reflexivity.
  - replace (length rest - n)%nat with 0%nat by lia. cbn [firstn].
    apply skipn_all2. rewrite length_firstn. lia.
Qed.

Section LiteralSink.

Context {Chan : Type} {channel : Channel Chan}.

Variable prompt : str.
Variable base : list str.

Lemma read_loop_literal_sink (fuel : nat) :
  forall (buf : str) (ln : Z) (h : LogStdoutHandler) (chan : Chan) (out : str),
    between_rounds base buf ln h ->
    value (read_loop fuel prompt false buf ln (Some h) chan) = Ok out ->
    exists h',
      handler_of (read_loop fuel prompt false buf ln (Some h) chan) = Some h'
      /\ printed h'
         = base ++ tl (completed_lines out)
                ++ match prompt_seen prompt false out with
                   | Some true => flushed prompt out
                   | _ => []
                   end.
Proof.
  induction fuel as [|fuel IH]; intros buf ln h chan out Hinv Hval;
    [discriminate|].
  cbn [read_loop] in *. unfold read_round in *.
  destruct (recv 10000000%N chan) as [raw chan'].
  set (data := fix_line_endings (decode raw)) in *.
  destruct Hinv as (done & rest & -> & -> & Hd & Hrest & Hp).
  assert (Hlen : (length (rest ++ data) <= length ((done ++ rest) ++ data))%nat).
  { rewrite !length_app. lia. }
  destruct (@print_lines_spec base _ done (rest ++ data) h Hd Hlen Hp)
    as (done' & rest' & h' & Hrun & Heq & Hd' & Hr' & Hp').
  rewrite <- app_assoc in *. rewrite Hrun in *.
  set (buf' := done ++ rest ++ data) in *.
  assert (Hcl : completed_lines buf' = completed_lines done').
  { rewrite Heq, (@completed_lines_app done' rest' Hd'), (@completed_lines_absent rest' Hr').
    apply app_nil_r. }
  destruct (prompt_seen prompt false buf') as [[|]|] eqn:Hseen.
  - cbn [value handler_of] in *. inversion Hval; subst out; clear Hval.
    rewrite Hseen, Hcl.
    unfold print_rest. rewrite Heq, slice_cursor, Hr'. cbn [negb].
    unfold flushed. rewrite (@trailing_app done' rest' Hd' Hr').
    destruct prompt as [|p0 prompt'] eqn:Eprompt.
    + cbn [len length Z.of_nat Z.opp]. rewrite slice_stop_zero.
      cbn [str_eqb negb]. exists h'. split; [reflexivity|].
      apply prompt_seen_literal_empty in Hseen.
      rewrite Heq in Hseen. apply app_eq_nil in Hseen as [_ ->].
      cbn. rewrite Hp', app_nil_r. reflexivity.
    + unfold len.
      rewrite slice_middle by (simpl; lia).
      rewrite without_last_cursor.
      destruct (without_last (length (p0 :: prompt')) rest') as [|x l] eqn:E.
      * cbn [str_eqb negb]. exists h'. rewrite Hp', app_nil_r. auto.
      * cbn [str_eqb negb]. eexists. split; [reflexivity|].
        cbn [print printed]. rewrite Hp'. rewrite <- app_assoc. reflexivity.
  - destruct (str_eqb data [] && exit_status_ready chan').
    + cbn [value handler_of] in *. inversion Hval; subst out; clear Hval.
      rewrite Hseen, Hcl. exists h'. rewrite Hp', app_nil_r. auto.
    + apply IH; [|exact Hval].
      exists done', rest'. auto.
  - discriminate.
Qed.

End LiteralSink.

(** With a literal prompt the sink holds, when the loop is left, what it
    held before, then every completed line of the buffer but the first, in
    order, then, if the loop was left at the prompt, the trailing content
    without the prompt, unless that is empty. *)
Lemma read_to_prompt_literal_sink
      (Chan : Type) (channel : Channel Chan) (fuel : nat) (chan : Chan)
      (prompt : str) (h : LogStdoutHandler) (out : str) :
  value (read_to_prompt fuel chan prompt (Some h) false) = Ok out ->
  exists h',
    handler_of (read_to_prompt fuel chan prompt (Some h) false) = Some h'
    /\ printed h'
       = printed h ++ tl (completed_lines out)
                   ++ match prompt_seen prompt false out with
                      | Some true => flushed prompt out
                      | _ => []
                      end.
Proof.
  unfold read_to_prompt. apply read_loop_literal_sink.
  exists [], []. repeat split; try reflexivity.
  - left; reflexivity.
  - cbn. rewrite app_nil_r. reflexivity.
Qed.


(** C7 at a pattern prompt.  The channel delivers [x], a newline and
    [out: ab>]; the prompt pattern is [[a-z]+>], which matches the final
    [ab>] and nothing that starts earlier.  The content after the last
    newline with that prompt taken off is [out: ]; what reaches the sink is
    [o]: the flush takes the length of the pattern off the end, not the
    length of the text the pattern matched. *)
Theorem read_to_prompt_pattern_flush (extra : nat) :
  let o := read_to_prompt (1 + extra) pattern_sink_channel (u "[a-z]+>")
                          (Some fresh_sink) true in
  value o = Ok (u "x" ++ [nl] ++ u "out: ab>")
  /\ option_map printed (handler_of o) = Some [u "o"]
  /\ option_map (fun r => map (fun s => Re.m r s (fun _ => true))
                              (Re.tails (u "x" ++ [nl] ++ u "out: ab>")))
                (Re.parse (u "[a-z]+>$"))
     = Some [false; false; false; false; false; false; false;
             true; true; false; false]
  /\ without_last (length (u "ab>")) (skipn 2 (u "x" ++ [nl] ++ u "out: ab>"))
     = u "out: ".
Proof.
  cbv zeta. unfold read_to_prompt.
  rewrite read_loop_more by (vm_compute; discriminate).
  repeat split; vm_compute; reflexivity.
Qed.

(** * Further properties of the code *)

(** ** [exec_command] and [read_to_prompt] *)

(** X1. On a channel whose exit status is ready, a command without a
    newline makes [exec_command] raise [InvalidChannelState]; the channel
    and the sink are as they were, so nothing was sent. *)
Theorem exec_command_closed_channel
        (Chan : Type) (channel : Channel Chan) (fuel : nat) (chan : Chan)
        (prompt command : str) (h : option LogStdoutHandler) :
  ~ In nl command ->
  exit_status_ready chan = true ->
  exec_command fuel chan prompt command h
  = {| value := Raise InvalidChannelState;
       handler_of := h; chan_of := chan |}.
Proof.
  intros Hc He. unfold exec_command.
  destruct (contains nl command) eqn:E;
    [apply contains_In in E; contradiction|].
  rewrite He. reflexivity.
Qed.

Lemma exec_command_closed_channel_witness :
  exec_command 5 closed_channel (u "TBOT->") (u "ls") None
  = {| value := Raise InvalidChannelState;
       handler_of := None; chan_of := closed_channel |}.
Proof.
  apply exec_command_closed_channel.
  - apply contains_false_not_In. vm_compute. reflexivity.
  - reflexivity.
Defined.

Section ReadLoopFacts.

Context {Chan : Type} {channel : Channel Chan}.

Lemma read_loop_no_cr (prompt : str) (prompt_regex : bool) (fuel : nat) :
  forall (buf : str) (ln : Z) (h : option LogStdoutHandler) (chan : Chan)
         (out : str),
    contains cr buf = false ->
    value (read_loop fuel prompt prompt_regex buf ln h chan) = Ok out ->
    contains cr out = false.
Proof.
  induction fuel as [|fuel IH]; intros buf ln h chan out Hb Hv;
    [discriminate|].
  cbn [read_loop] in Hv. unfold read_round in Hv.
  destruct (recv 10000000%N chan) as [raw chan'].
  assert (Hb' : contains cr (buf ++ fix_line_endings (decode raw)) = false).
  { rewrite contains_app, Hb, fix_line_endings_no_cr. reflexivity. }
  destruct h as [h|].
  - destruct (print_lines _ _ ln h) as [l h'].
    destruct (prompt_seen _ _ _) as [[|]|]; cbn [value] in Hv.
    + inversion Hv; subst; exact Hb'.
    + destruct (_ && _); cbn [value] in Hv.
      * inversion Hv; subst; exact Hb'.
      * apply (IH _ _ _ _ _ Hb' Hv).
    + discriminate.
  - destruct (prompt_seen _ _ _) as [[|]|]; cbn [value] in Hv.
    + inversion Hv; subst; exact Hb'.
    + destruct (_ && _); cbn [value] in Hv.
      * inversion Hv; subst; exact Hb'.
      * apply (IH _ _ _ _ _ Hb' Hv).
    + discriminate.
Qed.

Lemma read_loop_break (prompt : str) (prompt_regex : bool) (k extra : nat) :
  forall (b0 : str) (l0 : Z) (h0 : option LogStdoutHandler) (c0 : Chan)
         (buf : str) (ln : Z) (h' : option LogStdoutHandler)
         (chan' chan'' : Chan) (raw : list byte),
    rounds k prompt prompt_regex b0 l0 h0 c0 = Some (buf, ln, h', chan') ->
    recv 10000000%N chan' = (raw, chan'') ->
    prompt_seen prompt prompt_regex (buf ++ fix_line_endings (decode raw))
    = Some true ->
    let o := read_loop (k + 1 + extra) prompt prompt_regex b0 l0 h0 c0 in
    value o = Ok (buf ++ fix_line_endings (decode raw)) /\ chan_of o = chan''.
Proof.
  induction k as [|k IH];
    intros b0 l0 h0 c0 buf ln h' chan' chan'' raw Hk Hrecv Hseen.
  - cbn [rounds] in Hk. inversion Hk; subst; clear Hk.
    cbn [Nat.add read_loop]. unfold read_round. rewrite Hrecv.
    destruct h' as [h|].
    + destruct (print_lines _ _ ln h) as [l hh].
      rewrite Hseen. cbn. auto.
    + rewrite Hseen. cbn. auto.
  - cbn [rounds] in Hk. cbn [Nat.add read_loop].
    destruct (read_round prompt prompt_regex b0 l0 h0 c0)
      as [? ? ?|? ? ?|b l h c|? ?]; try discriminate.
    apply (IH b l h c buf ln h' chan' chan'' raw); assumption.
Qed.

Lemma read_loop_exit_reason (prompt : str) (prompt_regex : bool) (fuel : nat) :
  forall (buf : str) (ln : Z) (h : option LogStdoutHandler) (chan : Chan)
         (out : str),
    value (read_loop fuel prompt prompt_regex buf ln h chan) = Ok out ->
    prompt_seen prompt prompt_regex out = Some true
    \/ exit_status_ready
         (chan_of (read_loop fuel prompt prompt_regex buf ln h chan)) = true.
Proof.
  induction fuel as [|fuel IH]; intros buf ln h chan out Hv; [discriminate|].
  cbn [read_loop] in *. unfold read_round in *.
  destruct (recv 10000000%N chan) as [raw chan'].
  destruct h as [h|].
  - destruct (print_lines _ _ ln h) as [l h'].
    destruct (prompt_seen _ _ _) as [[|]|] eqn:Hs; cbn [value chan_of] in *.
    + inversion Hv; subst. left; exact Hs.
    + destruct (str_eqb _ _ && exit_status_ready chan') eqn:Hc;
        cbn [value chan_of] in *.
      * right. apply andb_true_iff in Hc. tauto.
      * apply IH; exact Hv.
    + discriminate.
  - destruct (prompt_seen _ _ _) as [[|]|] eqn:Hs; cbn [value chan_of] in *.
    + inversion Hv; subst. left; exact Hs.
    + destruct (str_eqb _ _ && exit_status_ready chan') eqn:Hc;
        cbn [value chan_of] in *.
      * right. apply andb_true_iff in Hc. tauto.
      * apply IH; exact Hv.
    + discriminate.
Qed.

End ReadLoopFacts.

(** X2. Whatever the channel delivers and in either prompt mode, the buffer
    [read_to_prompt] returns holds no carriage return. *)
Theorem read_to_prompt_no_carriage_return
        (Chan : Type) (channel : Channel Chan) (fuel : nat) (chan : Chan)
        (prompt : str) (h : option LogStdoutHandler) (prompt_regex : bool)
        (out : str) :
  value (read_to_prompt fuel chan prompt h prompt_regex) = Ok out ->
  contains cr out = false.
Proof. apply read_loop_no_cr. reflexivity. Qed.

Lemma read_to_prompt_no_carriage_return_witness :
  contains cr (u "a" ++ [nl] ++ u "b" ++ [nl] ++ u "TBOT->") = false.
Proof.
  apply (@read_to_prompt_no_carriage_return
           ScriptChan script_channel 2
           (open_channel [ ([x61; x0d; x0a; x62; x0d] ++ bytes "TBOT->", false) ])
           (u "TBOT->") None false).
  vm_compute. reflexivity.
Defined.

(** X3. [read_to_prompt] returns at the first round whose prompt check
    passes: after [k] rounds that stayed in the loop, a read that makes the
    check pass ends the call with the whole buffer, prompt included, and
    the channel is as that read left it; what the remote side sends later
    is not read. *)
Theorem read_to_prompt_stops_at_first_prompt
        (Chan : Type) (channel : Channel Chan) (k extra : nat)
        (prompt : str) (prompt_regex : bool) (h : option LogStdoutHandler)
        (chan : Chan) (buf : str) (ln : Z) (h' : option LogStdoutHandler)
        (chan' chan'' : Chan) (raw : list byte) :
  rounds k prompt prompt_regex [] 0 h chan = Some (buf, ln, h', chan') ->
  recv 10000000%N chan' = (raw, chan'') ->
  prompt_seen prompt prompt_regex (buf ++ fix_line_endings (decode raw))
  = Some true ->
  value (read_to_prompt (k + 1 + extra) chan prompt h prompt_regex)
  = Ok (buf ++ fix_line_endings (decode raw))
  /\ chan_of (read_to_prompt (k + 1 + extra) chan prompt h prompt_regex)
     = chan''.
Proof.
  intros Hk Hrecv Hseen. unfold read_to_prompt.
  exact (read_loop_break prompt prompt_regex k extra [] 0%Z h chan
                         Hk Hrecv Hseen).
Qed.

(** The echo of a command that names the prompt, cut just behind that
    name: the call returns there, and the rest stays unread. *)
Lemma read_to_prompt_stops_at_first_prompt_witness :
  value (read_to_prompt (0 + 1 + 3) echo_prompt_channel (u "TBOT->") None false)
  = Ok ([] ++ fix_line_endings (decode (bytes "echo TBOT->")))
  /\ chan_of (read_to_prompt (0 + 1 + 3) echo_prompt_channel (u "TBOT->")
                             None false)
     = open_channel echo_rest.
Proof.
  apply (@read_to_prompt_stops_at_first_prompt
           ScriptChan script_channel 0 3 (u "TBOT->") false None
           echo_prompt_channel [] 0%Z None echo_prompt_channel
           (open_channel echo_rest) (bytes "echo TBOT->"));
    vm_compute; reflexivity.
Defined.

(** X4. With a literal prompt that is not empty, a buffer returned by
    [read_to_prompt] ends in the prompt unless the channel reports that the
    exit status is ready. *)
Theorem read_to_prompt_prompt_or_closed
        (Chan : Type) (channel : Channel Chan) (fuel : nat) (chan : Chan)
        (prompt : str) (h : option LogStdoutHandler) (out : str) :
  prompt <> [] ->
  value (read_to_prompt fuel chan prompt h false) = Ok out ->
  last_chars (length prompt) out = prompt
  \/ exit_status_ready (chan_of (read_to_prompt fuel chan prompt h false))
     = true.
Proof.
  intros Hp Hv. unfold read_to_prompt in *.
  destruct (read_loop_exit_reason _ _ _ _ _ _ _ Hv) as [H|H];
    [left | right; exact H].
  apply (prompt_seen_literal out Hp). exact H.
Qed.

Lemma read_to_prompt_prompt_or_closed_witness :
  last_chars (length (u "TBOT->")) (u "partial") = u "TBOT->"
  \/ exit_status_ready
       (chan_of (read_to_prompt 3 partial_channel (u "TBOT->") None false))
     = true.
Proof.
  apply read_to_prompt_prompt_or_closed.
  - discriminate.
  - vm_compute. reflexivity.
Defined.

(** ** What reaches the sink *)

Lemma read_loop_sink (prompt : str) (prompt_regex : bool) (base : list str)
      (Hmode : prompt_regex = false \/ prompt <> [])
      (Chan : Type) (channel : Channel Chan) (fuel : nat) :
  forall (buf : str) (ln : Z) (h : LogStdoutHandler) (chan : Chan) (out : str),
    between_rounds base buf ln h ->
    value (read_loop fuel prompt prompt_regex buf ln (Some h) chan) = Ok out ->
    exists h',
      handler_of (read_loop fuel prompt prompt_regex buf ln (Some h) chan)
      = Some h'
      /\ printed h'
         = base ++ tl (completed_lines out)
                ++ match prompt_seen prompt prompt_regex out with
                   | Some true => flushed prompt out
                   | _ => []
                   end.
Proof.
  induction fuel as [|fuel IH]; intros buf ln h chan out Hinv Hval;
    [discriminate|].
  cbn [read_loop] in *. unfold read_round in *.
  destruct (recv 10000000%N chan) as [raw chan'].
  set (data := fix_line_endings (decode raw)) in *.
  destruct Hinv as (done & rest & -> & -> & Hd & Hrest & Hp).
  assert (Hlen : (length (rest ++ data) <= length ((done ++ rest) ++ data))%nat).
  { rewrite !length_app. lia. }
  destruct (@print_lines_spec base _ done (rest ++ data) h Hd Hlen Hp)
    as (done' & rest' & h' & Hrun & Heq & Hd' & Hr' & Hp').
  rewrite <- app_assoc in *. rewrite Hrun in *.
  set (buf' := done ++ rest ++ data) in *.
  assert (Hcl : completed_lines buf' = completed_lines done').
  { rewrite Heq, (@completed_lines_app done' rest' Hd'),
      (@completed_lines_absent rest' Hr').
    apply app_nil_r. }
  destruct (prompt_seen prompt prompt_regex buf') as [[|]|] eqn:Hseen.
  - cbn [value handler_of] in *. inversion Hval; subst out; clear Hval.
    rewrite Hseen, Hcl.
    unfold print_rest. rewrite Heq, slice_cursor, Hr'. cbn [negb].
    unfold flushed. rewrite (@trailing_app done' rest' Hd' Hr').
    destruct prompt as [|p0 prompt'].
    + destruct Hmode as [Hr|Hne]; [|contradiction]. rewrite Hr in Hseen.
      cbn [len length Z.of_nat Z.opp]. rewrite slice_stop_zero.
      cbn [str_eqb negb]. exists h'. split; [reflexivity|].
      apply prompt_seen_literal_empty in Hseen.
      rewrite Heq in Hseen. apply app_eq_nil in Hseen as [_ ->].
      cbn. rewrite Hp', app_nil_r. reflexivity.
    + unfold len.
      rewrite slice_middle by (simpl; lia).
      rewrite without_last_cursor.
      destruct (without_last (length (p0 :: prompt')) rest') as [|x l] eqn:E.
      * cbn [str_eqb negb]. exists h'. rewrite Hp', app_nil_r. auto.
      * cbn [str_eqb negb]. eexists. split; [reflexivity|].
        cbn [print printed]. rewrite Hp'. rewrite <- app_assoc. reflexivity.
  - destruct (str_eqb data [] && exit_status_ready chan').
    + cbn [value handler_of] in *. inversion Hval; subst out; clear Hval.
      rewrite Hseen, Hcl. exists h'. rewrite Hp', app_nil_r. auto.
    + apply IH; [|exact Hval].
      exists done', rest'. auto.
  - discriminate.
Qed.

(** X5. In either prompt mode (a pattern prompt being a non-empty string),
    when [read_to_prompt] returns, the sink holds what it held before, then
    every line of the returned buffer that a newline completed except the
    first, in order, then, if the prompt check passed, what follows the
    last newline with [len(prompt)] characters taken off its end, unless
    that is empty.  In pattern mode [len(prompt)] is the length of the
    pattern, not of the text it matched. *)
Theorem read_to_prompt_sink
        (Chan : Type) (channel : Channel Chan) (fuel : nat) (chan : Chan)
        (prompt : str) (prompt_regex : bool) (h : LogStdoutHandler)
        (out : str) :
  prompt_regex = false \/ prompt <> [] ->
  value (read_to_prompt fuel chan prompt (Some h) prompt_regex) = Ok out ->
  exists h',
    handler_of (read_to_prompt fuel chan prompt (Some h) prompt_regex) = Some h'
    /\ printed h'
       = printed h ++ tl (completed_lines out)
                   ++ match prompt_seen prompt prompt_regex out with
                      | Some true => flushed prompt out
                      | _ => []
                      end.
Proof.
  intros Hmode. unfold read_to_prompt. apply read_loop_sink; [exact Hmode|].
  exists [], []. repeat split; try reflexivity.
  - left; reflexivity.
  - cbn. rewrite app_nil_r. reflexivity.
Qed.

Lemma read_to_prompt_sink_witness :
  exists h',
    handler_of (read_to_prompt 2 words_channel (u "TBOT->") (Some fresh_sink)
                               false) = Some h'
    /\ printed h'
       = printed fresh_sink
           ++ tl (completed_lines (u "ls" ++ [nl] ++ u "a.txt" ++ [nl]
                                     ++ u "bTBOT->"))
           ++ match prompt_seen (u "TBOT->") false
                                (u "ls" ++ [nl] ++ u "a.txt" ++ [nl]
                                   ++ u "bTBOT->") with
              | Some true => flushed (u "TBOT->")
                                     (u "ls" ++ [nl] ++ u "a.txt" ++ [nl]
                                        ++ u "bTBOT->")
              | _ => []
              end.
Proof.
  apply read_to_prompt_sink.
  - left; reflexivity.
  - vm_compute. reflexivity.
Defined.

Lemma sink_extends_refl (h : LogStdoutHandler) : sink_extends h h.
Proof.
  unfold sink_extends. repeat split; try reflexivity.
  exists []. symmetry. apply app_nil_r.
Qed.

Lemma sink_extends_trans (a b c : LogStdoutHandler) :
  sink_extends a b -> sink_extends b c -> sink_extends a c.
Proof.
  unfold sink_extends.
  intros (A1 & A2 & A3 & A4 & A5 & m1 & A6) (B1 & B2 & B3 & B4 & B5 & m2 & B6).
  repeat split; try congruence.
  exists (m1 ++ m2). rewrite B6, A6, app_assoc. reflexivity.
Qed.

Lemma sink_extends_print (h : LogStdoutHandler) (line : str) :
  sink_extends h (print h line).
Proof.
  unfold sink_extends, print. cbn. repeat split; try reflexivity.
  exists [line]. reflexivity.
Qed.

Lemma print_lines_extends (fuel : nat) (buf : str) :
  forall (ln : Z) (h : LogStdoutHandler),
    sink_extends h (snd (print_lines fuel buf ln h)).
Proof.
  induction fuel as [|fuel IH]; intros ln h; cbn [print_lines].
  - apply sink_extends_refl.
  - destruct (contains nl (slice buf (Some ln) None)).
    + destruct (negb (ln =? 0)%Z).
      * eapply sink_extends_trans; [apply sink_extends_print | apply IH].
      * apply IH.
    + apply sink_extends_refl.
Qed.

Lemma sink_kept_refl (h : option LogStdoutHandler) : sink_kept h h.
Proof. destruct h; cbn; [apply sink_extends_refl | exact I]. Qed.

Lemma sink_kept_trans (a b c : option LogStdoutHandler) :
  sink_kept a b -> sink_kept b c -> sink_kept a c.
Proof.
  destruct a, b, c; cbn; try tauto. apply sink_extends_trans.
Qed.

Lemma print_rest_kept (prompt buf : str) (ln : Z)
      (h : option LogStdoutHandler) :
  sink_kept h (print_rest prompt buf ln h).
Proof.
  destruct h as [h|]; cbn [print_rest]; [|exact I].
  destruct (negb (contains nl (slice buf (Some ln) None)));
    [|apply sink_extends_refl].
  destruct (negb (str_eqb _ [])); cbn;
    [apply sink_extends_print | apply sink_extends_refl].
Qed.

Lemma read_loop_kept (Chan : Type) (channel : Channel Chan)
      (prompt : str) (prompt_regex : bool) (fuel : nat) :
  forall (buf : str) (ln : Z) (h : option LogStdoutHandler) (chan : Chan),
    sink_kept h (handler_of (read_loop fuel prompt prompt_regex buf ln h chan)).
Proof.
  induction fuel as [|fuel IH]; intros buf ln h chan; cbn [read_loop].
  - apply sink_kept_refl.
  - unfold read_round. destruct (recv 10000000%N chan) as [raw chan'].
    destruct h as [h|].
    + pose proof (print_lines_extends
                    (length (buf ++ fix_line_endings (decode raw)))
                    (buf ++ fix_line_endings (decode raw)) ln h) as Hx.
      destruct (print_lines _ _ ln h) as [l h']. cbn [snd] in Hx.
      assert (Hk : sink_kept (Some h) (Some h')) by exact Hx.
      destruct (prompt_seen _ _ _) as [[|]|]; cbn [handler_of].
      * eapply sink_kept_trans; [exact Hk | apply print_rest_kept].
      * destruct (_ && _); cbn [handler_of]; [exact Hk|].
        eapply sink_kept_trans; [exact Hk | apply IH].
      * exact Hk.
    + destruct (prompt_seen _ _ _) as [[|]|]; cbn [handler_of];
        try exact I.
      destruct (_ && _); cbn [handler_of]; [exact I | apply IH].
Qed.

(** X6. [read_to_prompt] leaves a sink as it found it but for lines added
    at the end: with no sink it makes none, and with one the event it
    stands for (machine, command, flags, exit code) is unchanged and the
    lines already there stay in front. *)
Theorem read_to_prompt_keeps_sink
        (Chan : Type) (channel : Channel Chan) (fuel : nat) (chan : Chan)
        (prompt : str) (h : option LogStdoutHandler) (prompt_regex : bool) :
  sink_kept h (handler_of (read_to_prompt fuel chan prompt h prompt_regex)).
Proof. apply read_loop_kept. Qed.

(** ** The output of a command and the lines streamed for it *)

Lemma cursor_decomp (b : str) :
  exists done rest, b = done ++ rest /\ at_line_start done
                    /\ contains nl rest = false.
Proof.
  induction b as [|x b IH] using rev_ind.
  - exists [], []. repeat split. left; reflexivity.
  - destruct IH as (done & rest & -> & Hd & Hr).
    destruct (N.eqb_spec nl x) as [<-|Hne].
    + exists ((done ++ rest) ++ [nl]), []. rewrite app_nil_r.
      repeat split. right. exists (done ++ rest). reflexivity.
    + exists done, (rest ++ [x]). rewrite app_assoc.
      repeat split; [exact Hd|].
      rewrite contains_app, Hr. cbn [orb].
      apply not_true_iff_false. rewrite contains_In.
      intros [E|[]]. apply Hne. symmetry. exact E.
Qed.

Lemma without_last_app (x p : str) : without_last (length p) (x ++ p) = x.
Proof.
  unfold without_last. rewrite length_app.
  replace (length x + length p - length p)%nat with (length x + 0)%nat by lia.
  rewrite firstn_app_2. cbn [firstn]. apply app_nil_r.
Qed.

Lemma last_chars_app (x p : str) : last_chars (length p) (x ++ p) = p.
Proof.
  unfold last_chars. rewrite length_app.
  replace (length x + length p - length p)%nat with (length x) by lia.
  rewrite skipn_app, skipn_all, Nat.sub_diag. reflexivity.
Qed.

Lemma at_line_start_after (a done : str) :
  at_line_start done -> at_line_start (a ++ [nl] ++ done).
Proof.
  intros [->|[d ->]]; right.
  - exists a. rewrite app_nil_r. reflexivity.
  - exists (a ++ [nl] ++ d). rewrite <- !app_assoc. reflexivity.
Qed.

(** X7. For a command and a literal prompt without newlines: when the
    synchronised buffer is the echoed command, a newline, a body and the
    prompt, [exec_command] returns the body, and the sink has received
    exactly the lines of the body, in order (the last one also when no
    newline ends it). *)
Theorem exec_command_streams_its_output
        (Chan : Type) (channel : Channel Chan) (fuel : nat) (chan : Chan)
        (prompt command body : str) (h : LogStdoutHandler) :
  contains nl command = false ->
  contains nl prompt = false ->
  prompt <> [] ->
  exit_status_ready chan = false ->
  value (read_to_prompt fuel (send (command ++ [nl]) chan) prompt (Some h) false)
  = Ok (command ++ [nl] ++ body ++ prompt) ->
  value (exec_command fuel chan prompt command (Some h)) = Ok body
  /\ exists h',
      handler_of (exec_command fuel chan prompt command (Some h)) = Some h'
      /\ printed h' = printed h ++ lines_of body.
Proof.
  intros Hc Hpn Hp He Hv.
  rewrite exec_command_open by assumption. cbv zeta. cbn [value handler_of].
  destruct (@read_to_prompt_literal_sink Chan channel fuel _ prompt h _ Hv)
    as (h' & Hh & Hpr).
  rewrite Hv, Hh. cbn [map_result]. split.
  - f_equal. unfold len.
    replace (Z.of_nat (length command) + 1)%Z
      with (Z.of_nat (length command + 1)) by lia.
    rewrite slice_middle by (destruct prompt; [contradiction | simpl; lia]).
    replace (command ++ [nl] ++ body ++ prompt)
      with ((command ++ [nl] ++ body) ++ prompt)
      by (rewrite <- !app_assoc; reflexivity).
    rewrite without_last_app.
    replace (command ++ [nl] ++ body) with ((command ++ [nl]) ++ body)
      by (rewrite <- app_assoc; reflexivity).
    rewrite skipn_app.
    replace (length command + 1)%nat with (length (command ++ [nl]))
      by (rewrite length_app; reflexivity).
    rewrite skipn_all, Nat.sub_diag. reflexivity.
  - exists h'. split; [reflexivity|]. rewrite Hpr. f_equal.
    destruct (cursor_decomp body) as (done & rest & -> & Hd & Hr).
    assert (Hseen : prompt_seen prompt false
                      (command ++ [nl] ++ (done ++ rest) ++ prompt) = Some true).
    { apply (prompt_seen_literal _ Hp).
      replace (command ++ [nl] ++ (done ++ rest) ++ prompt)
        with ((command ++ [nl] ++ done ++ rest) ++ prompt)
        by (rewrite <- !app_assoc; reflexivity).
      apply last_chars_app. }
    rewrite Hseen.
    assert (Hrp : contains nl (rest ++ prompt) = false).
    { rewrite contains_app, Hr, Hpn. reflexivity. }
    assert (Hshape : command ++ [nl] ++ (done ++ rest) ++ prompt
                     = (command ++ [nl] ++ done) ++ (rest ++ prompt)).
    { rewrite <- !app_assoc. reflexivity. }
    pose proof (at_line_start_after command Hd) as Hd2.
    unfold lines_of, flushed. rewrite Hshape.
    rewrite (@completed_lines_app _ (rest ++ prompt) Hd2),
      (@completed_lines_absent _ Hrp), app_nil_r.
    rewrite (@trailing_app _ _ Hd2 Hrp), without_last_app.
    rewrite (@completed_lines_app done rest Hd),
      (@completed_lines_absent rest Hr), app_nil_r.
    rewrite (@trailing_app done rest Hd Hr).
    f_equal.
    replace (command ++ [nl] ++ done) with ((command ++ [nl]) ++ done)
      by (rewrite <- app_assoc; reflexivity).
    assert (Hcn : at_line_start (command ++ [nl])).
    { right. exists command. reflexivity. }
    rewrite (@completed_lines_app _ done Hcn), completed_lines_nl.
    rewrite (@split_absent nl command Hc). reflexivity.
Qed.

Lemma exec_command_streams_its_output_witness :
  value (exec_command 2 words_channel (u "TBOT->") (u "ls") (Some fresh_sink))
  = Ok (u "a.txt" ++ [nl] ++ u "b")
  /\ exists h',
      handler_of (exec_command 2 words_channel (u "TBOT->") (u "ls")
                               (Some fresh_sink)) = Some h'
      /\ printed h' = printed fresh_sink ++ lines_of (u "a.txt" ++ [nl] ++ u "b").
Proof.
  apply exec_command_streams_its_output; vm_compute; try reflexivity.
  discriminate.
Defined.

(** ** [command_and_retval] off the straight path *)

(** X8. Whatever happens, the sink [command_and_retval] leaves is the one
    the given command left: the status query is made without a sink and
    nothing of it is streamed. *)
Theorem command_and_retval_sink
        (Chan : Type) (channel : Channel Chan) (int : str -> option Z)
        (fuel : nat) (chan : Chan) (prompt command : str)
        (h : option LogStdoutHandler) :
  handler_of (command_and_retval int fuel chan prompt command h)
  = handler_of (exec_command fuel chan prompt command h).
Proof.
  unfold command_and_retval.
  destruct (value (exec_command fuel chan prompt command h)); try reflexivity.
  destruct (value (exec_command fuel _ prompt (u "echo $?") None));
    try reflexivity.
  destruct (int (strip a0)); reflexivity.
Qed.

(** X9. When the given command cannot be run, the status query is not
    attempted: a command with a newline raises [InvalidCommand], a closed
    channel raises [InvalidChannelState], and either way the channel and
    the sink are as they were. *)
Theorem command_and_retval_stops_at_first_error
        (Chan : Type) (channel : Channel Chan) (int : str -> option Z)
        (fuel : nat) (chan : Chan) (prompt command : str)
        (h : option LogStdoutHandler) :
  (In nl command ->
   command_and_retval int fuel chan prompt command h
   = {| value := Raise (InvalidCommand command);
        handler_of := h; chan_of := chan |})
  /\ (~ In nl command -> exit_status_ready chan = true ->
      command_and_retval int fuel chan prompt command h
      = {| value := Raise InvalidChannelState;
           handler_of := h; chan_of := chan |}).
Proof.
  split.
  - intros Hin. apply contains_In in Hin. unfold command_and_retval.
    rewrite (@exec_command_newline Chan channel fuel chan prompt command h Hin).
    reflexivity.
  - intros Hn He. unfold command_and_retval, exec_command.
    destruct (contains nl command) eqn:E;
      [apply contains_In in E; contradiction|].
    rewrite He. reflexivity.
Qed.

Lemma command_and_retval_stops_at_first_error_witness :
  command_and_retval int_decimal 3 two_trip_channel (u "TBOT->")
                     (u "a" ++ [nl] ++ u "b") None
  = {| value := Raise (InvalidCommand (u "a" ++ [nl] ++ u "b"));
       handler_of := None; chan_of := two_trip_channel |}
  /\ command_and_retval int_decimal 3 closed_channel (u "TBOT->") (u "ls") None
     = {| value := Raise InvalidChannelState;
          handler_of := None; chan_of := closed_channel |}.
Proof.
  split.
  - apply (proj1 (@command_and_retval_stops_at_first_error
                    ScriptChan script_channel int_decimal 3 two_trip_channel
                    (u "TBOT->") (u "a" ++ [nl] ++ u "b") None)).
    apply contains_In. vm_compute. reflexivity.
  - apply (proj2 (@command_and_retval_stops_at_first_error
                    ScriptChan script_channel int_decimal 3 closed_channel
                    (u "TBOT->") (u "ls") None)).
    + apply contains_false_not_In. vm_compute. reflexivity.
    + reflexivity.
Defined.

(** X10. [command_and_retval] returns a pair only after both round trips:
    the given command came back with the output of the pair, [echo $?]
    came back on the channel the first left, its stripped text parses to
    the exit code of the pair, and exactly those two commands were sent. *)
Theorem command_and_retval_only_after_both
        (int : str -> option Z) (fuel : nat) (chan : ScriptChan)
        (prompt command : str) (h : option LogStdoutHandler)
        (retcode : Z) (out : str) :
  value (command_and_retval int fuel chan prompt command h)
  = Ok (retcode, out) ->
  exists text,
    value (exec_command fuel chan prompt command h) = Ok out
    /\ value (exec_command fuel
                (chan_of (exec_command fuel chan prompt command h))
                prompt (u "echo $?") None) = Ok text
    /\ int (strip text) = Some retcode
    /\ sent (chan_of (command_and_retval int fuel chan prompt command h))
       = sent chan ++ [command ++ [nl]; u "echo $?" ++ [nl]].
Proof. apply command_and_retval_inv. Qed.

Lemma command_and_retval_only_after_both_witness :
  exists text,
    value (exec_command 3 two_trip_channel (u "TBOT->") (u "ls") None)
    = Ok (u "a.txt" ++ [nl])
    /\ value (exec_command 3
                (chan_of (exec_command 3 two_trip_channel (u "TBOT->")
                                       (u "ls") None))
                (u "TBOT->") (u "echo $?") None) = Ok text
    /\ int_decimal (strip text) = Some 0%Z
    /\ sent (chan_of (command_and_retval int_decimal 3 two_trip_channel
                                         (u "TBOT->") (u "ls") None))
       = sent two_trip_channel ++ [u "ls" ++ [nl]; u "echo $?" ++ [nl]].
Proof.
  apply command_and_retval_only_after_both. vm_compute. reflexivity.
Defined.

(** X11. When both round trips complete but the stripped text of the
    status query is no integer, [command_and_retval] raises [ValueError]
    for that text; both commands have been sent by then, and the sink is
    the one the given command left. *)
Theorem command_and_retval_bad_status
        (int : str -> option Z) (fuel : nat) (chan : ScriptChan)
        (prompt command : str) (h h1 h2 : option LogStdoutHandler)
        (out text : str) (c1 c2 : ScriptChan) :
  exec_command fuel chan prompt command h
  = {| value := Ok out; handler_of := h1; chan_of := c1 |} ->
  exec_command fuel c1 prompt (u "echo $?") None
  = {| value := Ok text; handler_of := h2; chan_of := c2 |} ->
  int (strip text) = None ->
  command_and_retval int fuel chan prompt command h
  = {| value := Raise (ValueError (strip text));
       handler_of := h1; chan_of := c2 |}
  /\ sent c2 = sent chan ++ [command ++ [nl]; u "echo $?" ++ [nl]].
Proof.
  intros H1 H2 Hint. split.
  - unfold command_and_retval. rewrite H1. cbn [value chan_of handler_of].
    rewrite H2. cbn [value chan_of handler_of]. rewrite Hint. reflexivity.
  - pose proof (@exec_command_sent fuel chan prompt command h out) as S1.
    pose proof (@exec_command_sent fuel c1 prompt (u "echo $?") None text) as S2.
    rewrite H1 in S1. rewrite H2 in S2. cbn [value chan_of] in S1, S2.
    rewrite S2, S1 by reflexivity. rewrite <- app_assoc. reflexivity.
Qed.

Lemma command_and_retval_bad_status_witness :
  command_and_retval int_decimal 3 garbled_channel (u "TBOT->") (u "ls") None
  = {| value := Raise (ValueError (strip (u "oops" ++ [nl])));
       handler_of := None;
       chan_of := {| inbox := []; exited := false;
                     sent := [u "ls" ++ [nl]; u "echo $?" ++ [nl]] |} |}
  /\ sent {| inbox := []; exited := false;
             sent := [u "ls" ++ [nl]; u "echo $?" ++ [nl]] |}
     = sent garbled_channel ++ [u "ls" ++ [nl]; u "echo $?" ++ [nl]].
Proof.
  apply (@command_and_retval_bad_status
           int_decimal 3 garbled_channel (u "TBOT->") (u "ls") None None None
           [] (u "oops" ++ [nl])
           {| inbox := [(bytes "echo $?" ++ LF ++ bytes "oops" ++ LF
                               ++ bytes "TBOT->", false)];
              exited := false; sent := [u "ls" ++ [nl]] |});
    vm_compute; reflexivity.
Defined.

(** ** Line endings and decoding, chunk by chunk *)

(** X12. The replacements change a chunk exactly when it holds a carriage
    return. *)
Theorem fix_line_endings_identity_iff (s : str) :
  fix_line_endings s = s <-> contains cr s = false.
Proof.
  split.
  - intros E. rewrite <- E. apply fix_line_endings_no_cr.
  - intros H. apply fix_line_endings_fixed.
    apply contains_false_not_In. exact H.
Qed.

Lemma fix_line_endings_identity_iff_witness :
  fix_line_endings (u "make all") = u "make all".
Proof.
  apply (proj2 (fix_line_endings_identity_iff (u "make all"))).
  vm_compute. reflexivity.
Defined.

Lemma startswith_length (p s : str) :
  startswith p s = true -> (length p <= length s)%nat.
Proof.
  revert s; induction p as [|x p IH]; intros [|y s]; simpl;
    try discriminate; try lia.
  intros H. apply andb_true_iff in H as [_ H]. apply IH in H. lia.
Qed.

Lemma replace_from_length (old new : str) (fuel : nat) :
  (length new <= length old)%nat ->
  forall s : str, (length (replace_from fuel old new s) <= length s)%nat.
Proof.
  intros Hn. induction fuel as [|fuel IH]; intros s; [reflexivity|].
  destruct s as [|c s]; [reflexivity|]. cbn [replace_from].
  destruct (startswith old (c :: s)) eqn:E.
  - apply startswith_length in E. rewrite length_app.
    specialize (IH (skipn (length old) (c :: s))).
    rewrite length_skipn in IH. lia.
  - cbn [length]. specialize (IH s). lia.
Qed.

(** X13. The replacements never make a chunk longer. *)
Theorem fix_line_endings_length (s : str) :
  (length (fix_line_endings s) <= length s)%nat.
Proof.
  unfold fix_line_endings, replace.
  eapply Nat.le_trans; [apply replace_from_length; simpl; lia|].
  eapply Nat.le_trans; [apply replace_from_length; simpl; lia|].
  apply replace_from_length; simpl; lia.
Qed.

Lemma replace_from_prefix (x : char) (o new a s : str) (fuel : nat) :
  ~ In x a ->
  replace_from (length a + fuel) (x :: o) new (a ++ s)
  = a ++ replace_from fuel (x :: o) new s.
Proof.
  induction a as [|c a IH]; intros Hx; [reflexivity|].
  cbn [length Nat.add app replace_from startswith].
  destruct (N.eqb_spec x c) as [->|Hne].
  - exfalso. apply Hx. left; reflexivity.
  - cbn [andb]. f_equal. apply IH. intros H. apply Hx. right; exact H.
Qed.

Lemma replace_behind_prefix (x : char) (o new a s : str) :
  ~ In x a ->
  replace (x :: o) new (a ++ s) = a ++ replace (x :: o) new s.
Proof.
  intros Hx. unfold replace. rewrite length_app.
  apply replace_from_prefix. exact Hx.
Qed.

(** X14. The replacements are made chunk by chunk: a CR LF that arrives
    whole becomes one newline, while a CR at the end of one chunk and the
    LF at the start of the next become two (here for text that has no
    other carriage return). *)
Theorem fix_line_endings_split_crlf (a b : str) :
  contains cr a = false -> contains cr b = false ->
  fix_line_endings (a ++ [cr; nl] ++ b) = a ++ [nl] ++ b
  /\ fix_line_endings (a ++ [cr]) ++ fix_line_endings ([nl] ++ b)
     = a ++ [nl; nl] ++ b.
Proof.
  intros Ha Hb.
  pose proof (contains_false_not_In _ _ Ha) as Ha'.
  pose proof (contains_false_not_In _ _ Hb) as Hb'.
  assert (Hnb : ~ In cr (nl :: b)).
  { intros [E|H]; [discriminate | contradiction]. }
  assert (Hanb : ~ In cr (a ++ nl :: b)).
  { intros H. apply in_app_or in H as [H|H]; contradiction. }
  split.
  - unfold fix_line_endings.
    rewrite (@replace_behind_prefix cr [nl] [nl] a ([cr; nl] ++ b) Ha').
    assert (E : replace [cr; nl] [nl] ([cr; nl] ++ b) = nl :: b).
    { change (replace [cr; nl] [nl] ([cr; nl] ++ b))
        with (nl :: replace_from (S (length b)) [cr; nl] [nl] b).
      f_equal. apply replace_from_absent. exact Hb'. }
    rewrite E.
    rewrite (@replace_absent cr [nl] [nl] _ Hanb).
    apply (@replace_absent cr [] [nl] _ Hanb).
  - assert (E1 : fix_line_endings (a ++ [cr]) = a ++ [nl]).
    { unfold fix_line_endings.
      assert (E2 : replace [cr; nl] [nl] (a ++ [cr]) = a ++ [cr]).
      { rewrite (@replace_behind_prefix cr [nl] [nl] a [cr] Ha'). reflexivity. }
      rewrite E2, E2.
      rewrite (@replace_behind_prefix cr [] [nl] a [cr] Ha'). reflexivity. }
    rewrite E1. change ([nl] ++ b) with (nl :: b).
    rewrite (@fix_line_endings_fixed (nl :: b) Hnb).
    rewrite <- app_assoc. reflexivity.
Qed.

Lemma fix_line_endings_split_crlf_witness :
  fix_line_endings (u "a" ++ [cr; nl] ++ u "b") = u "a" ++ [nl] ++ u "b"
  /\ fix_line_endings (u "a" ++ [cr]) ++ fix_line_endings ([nl] ++ u "b")
     = u "a" ++ [nl; nl] ++ u "b".
Proof.
  apply fix_line_endings_split_crlf; vm_compute; reflexivity.
Defined.

Lemma utf8_ascii (l : list N) :
  forallb (fun b => (b <? 128)%N) l = true -> utf8 l = Some l.
Proof.
  induction l as [|c l IH]; [reflexivity|].
  cbn [forallb]. intros H. apply andb_true_iff in H as [Hc Hl].
  cbn [utf8]. rewrite Hc, (IH Hl). reflexivity.
Qed.

(** X15. A chunk of bytes below 128 decodes to the same numbers, one
    character for each byte. *)
Theorem decode_ascii (bs : list byte) :
  forallb (fun b => (Byte.to_N b <? 128)%N) bs = true ->
  decode bs = map Byte.to_N bs.
Proof.
  intros H. unfold decode. rewrite utf8_ascii; [reflexivity|].
  rewrite forallb_forall in *. intros x Hx.
  apply in_map_iff in Hx as (b & <- & Hb). apply H. exact Hb.
Qed.

Lemma decode_ascii_witness : decode (bytes "TBOT->") = map Byte.to_N (bytes "TBOT->").
Proof. apply decode_ascii. vm_compute. reflexivity. Defined.

Ltac utf8_step IH :=
  match goal with
  | H : option_map (cons _) (utf8 ?r) = Some _ |- _ =>
      let s' := fresh "s" in
      let E := fresh "E" in
      destruct (utf8 r) as [s'|] eqn:E; cbn [option_map] in H;
      [inversion H; subst; clear H; apply IH in E; [cbn [length] in *; lia|
                                                    cbn [length] in *; lia]
      | discriminate]
  end.

Lemma utf8_length (n : nat) :
  forall (l : list N) (s : str),
    (length l <= n)%nat -> utf8 l = Some s -> (length s <= length l)%nat.
Proof.
  induction n as [|n IH]; intros l s Hn H.
  - destruct l; [|simpl in Hn; lia]. inversion H. reflexivity.
  - destruct l as [|b0 r0]; [inversion H; reflexivity|].
    cbn [length] in Hn. cbn [utf8] in H.
    destruct (b0 <? 128)%N; [utf8_step IH|].
    destruct ((194 <=? b0) && (b0 <=? 223))%N.
    { destruct r0 as [|b1 r1]; [discriminate|].
      destruct (is_cont b1); [utf8_step IH | discriminate]. }
    destruct ((224 <=? b0) && (b0 <=? 239))%N.
    { destruct r0 as [|b1 [|b2 r2]]; try discriminate.
      destruct (_ && _); [utf8_step IH | discriminate]. }
    destruct ((240 <=? b0) && (b0 <=? 244))%N; [|discriminate].
    destruct r0 as [|b1 [|b2 [|b3 r3]]]; try discriminate.
    destruct (_ && _); [utf8_step IH | discriminate].
Qed.

(** X16. Decoding never yields more characters than there were bytes, and
    a chunk that is not valid UTF-8 is decoded byte by byte as latin-1:
    every byte, also those of its valid multi-byte parts, becomes the
    character with the number of that byte. *)
Theorem decode_length (bs : list byte) :
  (length (decode bs) <= length bs)%nat
  /\ (utf8 (map Byte.to_N bs) = None -> decode bs = map Byte.to_N bs).
Proof.
  unfold decode. destruct (utf8 (map Byte.to_N bs)) as [s|] eqn:E.
  - split; [|discriminate].
    apply (@utf8_length _ _ _ (le_n _)) in E. rewrite length_map in E. exact E.
  - unfold latin_1. rewrite length_map. split; [lia | reflexivity].
Qed.

Lemma decode_length_witness :
  decode [xc3; xa9; xff] = map Byte.to_N [xc3; xa9; xff].
Proof.
  apply (proj2 (decode_length [xc3; xa9; xff])). vm_compute. reflexivity.
Defined.

(** ** The machine, further *)

(** X17. After [_setup] with a [tb] that is not interactive, [exec] asks
    nothing of the operator: the lines waiting on the operator's input
    stay, the result is what [_exec] returned, and exactly one event is
    logged, whose exit code is the one returned. *)
Theorem exec_not_interactive
        (St : Type) (self : Machine.Machine St) (tb : Manager.TBot)
        (previous : option (Machine.Machine St)) (command : str)
        (log_show log_show_stdout : bool) (w : Machine.World St)
        (rc : Z) (out : str) (h : LogStdoutHandler) (st : St) :
  Manager.interactive tb = false ->
  Machine._exec self command
    (shell_command (split 45%N (Machine.unique_machine_name self)) command
                   log_show log_show_stdout)
    (Machine.session w) = (Ok (rc, out), h, st) ->
  exists event,
    Machine.exec (Manager._setup self tb previous) command
                 log_show log_show_stdout w
    = (Ok (rc, out),
       {| Machine.stdin := Machine.stdin w;
          Machine.console := Machine.console w ++ [Machine.Executed event];
          Machine.session := st |})
    /\ dct_exit_code event = Some rc
    /\ printed event = printed h.
Proof.
  intros Hi He. exists (set_exit_code h rc).
  unfold Machine.exec, Manager._setup. cbn [Machine._interactive].
  rewrite Hi. unfold Machine.dispatch.
  cbn [Machine.unique_machine_name Machine._exec]. rewrite He.
  repeat split.
Qed.

Lemma exec_not_interactive_witness :
  exists event,
    Machine.exec (Manager._setup (lab true) (lab_tb false) None) (u "ls")
                 true true (operator [u "n"] two_trip_channel)
    = (Ok (0%Z, u "a.txt" ++ [nl]),
       {| Machine.stdin := [u "n"];
          Machine.console := [] ++ [Machine.Executed event];
          Machine.session :=
            {| inbox := []; exited := false;
               sent := [u "ls" ++ [nl]; u "echo $?" ++ [nl]] |} |})
    /\ dct_exit_code event = Some 0%Z
    /\ printed event = [u "a.txt"].
Proof.
  apply (@exec_not_interactive
           ScriptChan (lab true) (lab_tb false) None (u "ls") true true
           (operator [u "n"] two_trip_channel) 0%Z (u "a.txt" ++ [nl])
           (print (shell_command [u "lab"] (u "ls") true true) (u "a.txt")));
    vm_compute; reflexivity.
Defined.

(** X18. In interactive mode a declined command passes the check of
    [exec0]: for an answer that is not empty and starts with neither [y]
    nor [Y], [exec0] returns the empty string and the session is
    untouched. *)
Theorem exec0_declined
        (St : Type) (self : Machine.Machine St) (command : str)
        (log_show log_show_stdout : bool) (w : Machine.World St)
        (c : char) (answer : str) (rest : list str) :
  Machine._interactive self = true ->
  Machine.stdin w = (c :: answer) :: rest ->
  c <> 121%N -> c <> 89%N ->
  fst (Machine.exec0 self command log_show log_show_stdout w) = Ok []
  /\ Machine.session
       (snd (Machine.exec0 self command log_show log_show_stdout w))
     = Machine.session w.
Proof.
  intros Hi Hin Hy HY. unfold Machine.exec0, Machine.exec. rewrite Hi, Hin.
  cbn [lower map str_eqb negb andb]. rewrite lower_char_y.
  destruct (N.eqb_spec c 121); [contradiction|].
  destruct (N.eqb_spec c 89); [contradiction|].
  cbn. split; reflexivity.
Qed.

Lemma exec0_declined_witness :
  fst (Machine.exec0 (lab true) (u "reboot") true true
                     (operator [u "no"] two_trip_channel)) = Ok []
  /\ Machine.session
       (snd (Machine.exec0 (lab true) (u "reboot") true true
                           (operator [u "no"] two_trip_channel)))
     = Machine.session (operator [u "no"] two_trip_channel).
Proof.
  apply (@exec0_declined ScriptChan (lab true) (u "reboot") true true
                         (operator [u "no"] two_trip_channel)
                         110%N (u "o") []).
  - reflexivity.
  - reflexivity.
  - discriminate.
  - discriminate.
Defined.

(** X19. [exec0] has no effect of its own: it leaves the world exactly as
    [exec] does, and an exception of [exec] is the exception of [exec0]. *)
Theorem exec0_adds_no_effect
        (St : Type) (self : Machine.Machine St) (command : str)
        (log_show log_show_stdout : bool) (w : Machine.World St) :
  snd (Machine.exec0 self command log_show log_show_stdout w)
  = snd (Machine.exec self command log_show log_show_stdout w)
  /\ (forall e : exn,
         fst (Machine.exec self command log_show log_show_stdout w) = Raise e ->
         fst (Machine.exec0 self command log_show log_show_stdout w) = Raise e).
Proof.
  unfold Machine.exec0.
  destruct (Machine.exec self command log_show log_show_stdout w)
    as [[ret| e' |] w'] eqn:E; cbn [fst snd].
  - destruct (fst ret =? 0)%Z; cbn [fst snd];
      (split; [reflexivity | intros e H; discriminate H]).
  - split; [reflexivity | intros e H; inversion H; reflexivity].
  - split; [reflexivity | intros e H; discriminate H].
Qed.

(** The operator's input has ended: [input] fails, and so does [exec0]. *)
Lemma exec0_adds_no_effect_witness :
  fst (Machine.exec0 (lab true) (u "ls") true true
                     (operator [] two_trip_channel)) = Raise EOFError.
Proof.
  apply (proj2 (@exec0_adds_no_effect ScriptChan (lab true) (u "ls") true true
                                      (operator [] two_trip_channel))).
  reflexivity.
Defined.

(** X20. Whatever the machine and the answer, [exec] takes at most one line
    of the operator's input, and what was shown or logged before stays in
    front of what it adds. *)
Theorem exec_consumes_one_line_at_most
        (St : Type) (self : Machine.Machine St) (command : str)
        (log_show log_show_stdout : bool) (w : Machine.World St) :
  let w' := snd (Machine.exec self command log_show log_show_stdout w) in
  (Machine.stdin w' = Machine.stdin w
   \/ exists answer, Machine.stdin w = answer :: Machine.stdin w')
  /\ exists more, Machine.console w' = Machine.console w ++ more.
Proof.
  assert (D : forall w0 : Machine.World St,
             Machine.stdin
               (snd (Machine.dispatch self command log_show log_show_stdout w0))
             = Machine.stdin w0
             /\ exists more,
                 Machine.console
                   (snd (Machine.dispatch self command log_show
                                          log_show_stdout w0))
                 = Machine.console w0 ++ more).
  { intros w0. unfold Machine.dispatch.
    destruct (Machine._exec self command _ (Machine.session w0))
      as [[[ret|e|] h] st]; cbn; split; try reflexivity; eauto. }
  cbv zeta. unfold Machine.exec.
  destruct (Machine._interactive self).
  - destruct (Machine.stdin w) as [|answer rest] eqn:Hin.
    + cbn. split; [left; exact Hin | eauto].
    + destruct (negb (str_eqb (lower answer) []) && _).
      * cbn. split; [right; eauto|].
        rewrite <- app_assoc. eauto.
      * match goal with
        | |- context [Machine.dispatch self command _ _ ?w0] =>
            destruct (D w0) as [Hs [more Hc]]
        end.
        rewrite Hs, Hc. cbn. split; [right; eauto|].
        rewrite <- app_assoc. eauto.
  - destruct (D w) as [Hs [more Hc]]. rewrite Hs, Hc.
    split; [left; reflexivity | eauto].
Qed.

(** ** [setup_channel] *)

Import ShellSetup.

Lemma pty_read_loop_calls (prompt : str) (prompt_regex : bool) (fuel : nat) :
  forall (buf : str) (ln : Z) (h : option LogStdoutHandler)
         (c : ShellSetup.PtyScript),
    ShellSetup.calls (chan_of (read_loop fuel prompt prompt_regex buf ln h c))
    = ShellSetup.calls c
    /\ sent (ShellSetup.wire
               (chan_of (read_loop fuel prompt prompt_regex buf ln h c)))
       = sent (ShellSetup.wire c).
Proof.
  induction fuel as [|fuel IH]; intros buf ln h c; [split; reflexivity|].
  cbn [read_loop]. unfold read_round.
  cbn [recv ShellSetup.pty_script_channel].
  pose proof (script_recv_sent 10000000 (ShellSetup.wire c)) as Hs.
  destruct (script_recv 10000000 (ShellSetup.wire c)) as [raw w'].
  cbn [snd] in Hs.
  set (c' := {| ShellSetup.wire := w'; ShellSetup.calls := ShellSetup.calls c |}).
  assert (Hc' : ShellSetup.calls c' = ShellSetup.calls c
                /\ sent (ShellSetup.wire c') = sent (ShellSetup.wire c))
    by (split; [reflexivity | exact Hs]).
  destruct h as [h|].
  - destruct (print_lines _ _ ln h) as [l h'].
    destruct (prompt_seen _ _ _) as [[|]|]; cbn [chan_of]; try exact Hc'.
    destruct (_ && _); cbn [chan_of]; [exact Hc'|].
    destruct (IH (buf ++ fix_line_endings (decode raw)) l (Some h') c')
      as [A B].
    rewrite A, B. exact Hc'.
  - destruct (prompt_seen _ _ _) as [[|]|]; cbn [chan_of]; try exact Hc'.
    destruct (_ && _); cbn [chan_of]; [exact Hc'|].
    destruct (IH (buf ++ fix_line_endings (decode raw)) ln None c') as [A B].
    rewrite A, B. exact Hc'.
Qed.

(** X21. On a scripted session [setup_channel] asks for a pty named
    [xterm-256color], resizes it to 200 by 200 characters and 1000 by 1000
    pixels, starts the shell and sends one text, in this order and nothing
    else; the text switches the history file and the prompt command off
    and sets [PS1] to the prompt between single quotes. *)
Theorem setup_channel_calls
        (fuel : nat) (c : ShellSetup.PtyScript) (prompt : str) :
  ShellSetup.calls (chan_of (ShellSetup.setup_channel fuel c prompt))
  = ShellSetup.calls c
      ++ [ ShellSetup.GetPty (u "xterm-256color");
           ShellSetup.ResizePty 200 200 1000 1000;
           ShellSetup.InvokeShell;
           ShellSetup.Sent (u "unset HISTFILE" ++ [nl]
                              ++ u "PROMPT_COMMAND=''" ++ [nl]
                              ++ u "PS1='" ++ prompt ++ u "'" ++ [nl]) ]
  /\ sent (ShellSetup.wire (chan_of (ShellSetup.setup_channel fuel c prompt)))
     = sent (ShellSetup.wire c)
         ++ [ u "unset HISTFILE" ++ [nl] ++ u "PROMPT_COMMAND=''" ++ [nl]
                ++ u "PS1='" ++ prompt ++ u "'" ++ [nl] ].
Proof.
  unfold ShellSetup.setup_channel, read_to_prompt. cbn [chan_of].
  match goal with
  | |- context [read_loop fuel prompt false [] 0%Z None ?c0] =>
      destruct (pty_read_loop_calls prompt false fuel [] 0%Z None c0) as [A B]
  end.
  rewrite A, B. cbn. rewrite <- !app_assoc. split; reflexivity.
Qed.

Lemma read_loop_never_raises (Chan : Type) (channel : Channel Chan)
      (prompt : str) (prompt_regex : bool) (fuel : nat) :
  forall (buf : str) (ln : Z) (h : option LogStdoutHandler) (chan : Chan),
    (exists out, value (read_loop fuel prompt prompt_regex buf ln h chan)
                 = Ok out)
    \/ value (read_loop fuel prompt prompt_regex buf ln h chan) = Undef.
Proof.
  induction fuel as [|fuel IH]; intros buf ln h chan; [right; reflexivity|].
  cbn [read_loop].
  destruct (read_round prompt prompt_regex buf ln h chan); cbn [value];
    eauto.
Qed.

(** X22. [setup_channel] raises no exception of its own.  In particular,
    when the remote side is gone before the prompt shows (a read of no
    bytes with the exit status ready, the prompt check failing on the
    buffer), it returns normally, and the buffer read is dropped. *)
Theorem setup_channel_returns_without_prompt
        (Chan : Type) (channel : Channel Chan)
        (pty : @ShellSetup.PtyChannel Chan channel)
        (k extra : nat) (chan : Chan) (prompt buf : str) (ln : Z)
        (h' : option LogStdoutHandler) (chan' chan'' : Chan) :
  (value (ShellSetup.setup_channel (k + 1 + extra) chan prompt) = Ok tt
   \/ value (ShellSetup.setup_channel (k + 1 + extra) chan prompt) = Undef)
  /\ (rounds k prompt false [] 0 None
             (send (ShellSetup.init_text prompt)
                   (ShellSetup.invoke_shell
                      (ShellSetup.resize_pty 200 200 1000 1000
                         (ShellSetup.get_pty (u "xterm-256color") chan))))
      = Some (buf, ln, h', chan') ->
      recv 10000000%N chan' = ([], chan'') ->
      exit_status_ready chan'' = true ->
      prompt_seen prompt false buf = Some false ->
      value (ShellSetup.setup_channel (k + 1 + extra) chan prompt) = Ok tt
      /\ chan_of (ShellSetup.setup_channel (k + 1 + extra) chan prompt)
         = chan'').
Proof.
  unfold ShellSetup.setup_channel, read_to_prompt. cbn [value chan_of].
  split.
  - match goal with
    | |- context [read_loop ?f prompt false [] 0%Z None ?c0] =>
        destruct (read_loop_never_raises channel prompt false f [] 0%Z None c0)
          as [[out H]|H]; rewrite H; auto
    end.
  - intros Hk Hrecv Hexit Hseen.
    destruct (read_loop_closed prompt false k extra _ _ _ _ Hk Hrecv Hexit Hseen)
      as [Hv Hc].
    rewrite Hv. split; [reflexivity | exact Hc].
Qed.

Lemma setup_channel_returns_without_prompt_witness :
  value (ShellSetup.setup_channel (1 + 1 + 2) pty_closing (u "TBOT->")) = Ok tt.
Proof.
  refine (proj1 (proj2 (@setup_channel_returns_without_prompt
            ShellSetup.PtyScript ShellSetup.pty_script_channel
            ShellSetup.pty_script 1 2 pty_closing (u "TBOT->")
            (u "Last login") 0%Z None _ _) _ _ _ _));
    vm_compute; reflexivity.
Defined.

(** ** [special.py] *)

(** X23. An environment reference resolves to [${], its name and [}];
    raw text and static text resolve to themselves.  So two references
    resolve alike exactly when their names are the same, a reference never
    resolves to its bare name, and the kind of a value cannot be read back
    from its text: the raw text of a resolved reference resolves as the
    reference does. *)
Theorem resolve_string_env_injective :
  (forall n : str,
      Special.resolve_string (Special.Env n) = [36%N; 123%N] ++ n ++ [125%N])
  /\ (forall t : str, Special.resolve_string (Special.Raw t) = t)
  /\ (forall t : str, Special.resolve_string (Special._Static t) = t)
  /\ (forall a b : str,
         str_eqb (Special.resolve_string (Special.Env a))
                 (Special.resolve_string (Special.Env b))
         = str_eqb a b)
  /\ (forall n : str,
         str_eqb (Special.resolve_string (Special.Env n))
                 (Special.resolve_string (Special.Raw n)) = false)
  /\ (forall n : str,
         Special.resolve_string
           (Special.Raw (Special.resolve_string (Special.Env n)))
         = Special.resolve_string (Special.Env n)).
Proof.
  split; [reflexivity|]. split; [reflexivity|]. split; [reflexivity|].
  split; [|split; [|reflexivity]].
  - intros a b. cbn [Special.resolve_string].
    destruct (str_eqb a b) eqn:E.
    + apply str_eqb_eq in E. subst. apply str_eqb_refl.
    + apply str_eqb_neq. apply str_eqb_neq in E. intros H. apply E.
      apply app_inv_head in H. apply app_inv_tail in H. exact H.
  - intros n. apply str_eqb_neq. cbn [Special.resolve_string]. intros H.
    apply (f_equal (@length char)) in H. rewrite !length_app in H.
    cbn in H. lia.
Qed.

(** ** [MachineManager.__init__] *)

(** X24. Without a connection to adopt, [__init__] loads the system host
    keys and then connects to [lab.hostname], once.  Of the four optional
    settings exactly those the configuration has are passed on, under the
    names [port], [username], [password] and [key_filename]; none is
    passed as [None]; the key file is passed as a string, the others as
    they are. *)
Theorem machine_manager_connects
        (M : Type) (tb : Manager.TBot) (host : Manager.cfg_value) :
  Manager.config tb (u "lab.hostname") = Some host ->
  exists kwargs,
    option_map (@Manager.connection M) (Manager.MachineManager_init M tb None)
    = Some [Manager.LoadSystemHostKeys; Manager.Connect host kwargs]
    /\ Manager.getitem (u "port") kwargs
       = option_map Some (Manager.config tb (u "lab.port"))
    /\ Manager.getitem (u "username") kwargs
       = option_map Some (Manager.config tb (u "lab.user"))
    /\ Manager.getitem (u "password") kwargs
       = option_map Some (Manager.config tb (u "lab.password"))
    /\ Manager.getitem (u "key_filename") kwargs
       = option_map (fun v => Some (Manager.CStr (Manager.py_str (Some v))))
                    (Manager.config tb (u "lab.keyfile"))
    /\ forallb (fun kv => match snd kv with Some _ => true | None => false end)
               kwargs = true
    /\ forallb (fun kv => existsb (fun arg => str_eqb (snd arg) (fst kv))
                                  Manager.KWARGS_LIST)
               kwargs = true.
Proof.
  intros Hhost. exists (Manager.connect_kwargs tb).
  split.
  { unfold Manager.MachineManager_init. rewrite Hhost. reflexivity. }
  unfold Manager.connect_kwargs, Manager.KWARGS_LIST. cbn [map fst snd].
  destruct (Manager.config tb (u "lab.port")) as [v1|];
    destruct (Manager.config tb (u "lab.user")) as [v2|];
    destruct (Manager.config tb (u "lab.password")) as [v3|];
    destruct (Manager.config tb (u "lab.keyfile")) as [v4|];
    repeat split; vm_compute; reflexivity.
Qed.

Lemma machine_manager_connects_witness :
  exists kwargs,
    option_map (@Manager.connection unit)
               (Manager.MachineManager_init unit (lab_tb false) None)
    = Some [Manager.LoadSystemHostKeys;
            Manager.Connect (Manager.CStr (u "lab1")) kwargs]
    /\ Manager.getitem (u "port") kwargs
       = option_map Some (Manager.config (lab_tb false) (u "lab.port"))
    /\ Manager.getitem (u "username") kwargs
       = option_map Some (Manager.config (lab_tb false) (u "lab.user"))
    /\ Manager.getitem (u "password") kwargs
       = option_map Some (Manager.config (lab_tb false) (u "lab.password"))
    /\ Manager.getitem (u "key_filename") kwargs
       = option_map (fun v => Some (Manager.CStr (Manager.py_str (Some v))))
                    (Manager.config (lab_tb false) (u "lab.keyfile"))
    /\ forallb (fun kv => match snd kv with Some _ => true | None => false end)
               kwargs = true
    /\ forallb (fun kv => existsb (fun arg => str_eqb (snd arg) (fst kv))
                                  Manager.KWARGS_LIST)
               kwargs = true.
Proof.
  apply machine_manager_connects. vm_compute. reflexivity.
Defined.

(** ** [demo_bisect.py] *)

Lemma join_empties (sep : str) (n : nat) :
  DemoBisect.join sep (repeat [] (S n)) = concat (repeat sep n).
Proof.
  induction n as [|n IH]; [reflexivity|].
  change (DemoBisect.join sep (repeat [] (S (S n))))
    with ([] ++ sep ++ DemoBisect.join sep (repeat [] (S n))).
  rewrite IH. reflexivity.
Qed.

Lemma map_const_repeat {A B : Type} (c : B) (l : list A) :
  map (fun _ => c) l = repeat c (length l).
Proof. induction l as [|x l IH]; cbn; [reflexivity | rewrite IH; reflexivity]. Qed.

(** X25. Joining [i + 1] empty strings with [very ] gives [very ] exactly
    [i] times, so the commit of round [i] is made with the message [A ],
    [i] times [very ], [bad commit]. *)
Theorem very_bad_commit_message (repo : str) (i : nat) :
  DemoBisect.very i = concat (repeat (u "very ") i)
  /\ nth 2 (DemoBisect.commit_commands repo i) []
     = u "cd " ++ repo ++ u "; git commit -m 'A "
         ++ concat (repeat (u "very ") i) ++ u "bad commit'".
Proof.
  assert (E : DemoBisect.very i = concat (repeat (u "very ") i)).
  { unfold DemoBisect.very, DemoBisect.range0.
    rewrite map_const_repeat, length_map, length_seq.
    replace (i + 1)%nat with (S i) by lia. apply join_empties. }
  split; [exact E|]. cbn [DemoBisect.commit_commands nth]. rewrite E.
  reflexivity.
Qed.

Section DemoLoop.

Variable St : Type.
Variable self : Machine.Machine St.
Variable repo : str.

Hypothesis not_interactive : Machine._interactive self = false.

(** Every command exits with 0, and the sink comes back for the same
    command. *)
Hypothesis all_succeed :
  forall (command : str) (h : LogStdoutHandler) (st : St),
  exists out h' st',
    Machine._exec self command h st = (Ok (0%Z, out), h', st')
    /\ ev_command h' = ev_command h.

Lemma exec0_succeeds (command : str) (w : Machine.World St) :
  exists out e w',
    Machine.exec0 self command true true w = (Ok out, w')
    /\ Machine.console w' = Machine.console w ++ [e]
    /\ event_command e = command.
Proof.
  unfold Machine.exec0, Machine.exec. rewrite not_interactive.
  unfold Machine.dispatch.
  destruct (all_succeed command
              (shell_command (split 45%N (Machine.unique_machine_name self))
                             command true true)
              (Machine.session w)) as (out & h' & st' & He & Hc).
  rewrite He. cbn [fst snd Z.eqb].
  eexists _, _, _. split; [reflexivity|]. cbn. split; [reflexivity|].
  exact Hc.
Qed.

Lemma bad_commit_succeeds (i : nat) (w : Machine.World St) :
  exists out evs w',
    DemoBisect.bad_commit self repo i w = (Ok out, w')
    /\ Machine.console w' = Machine.console w ++ evs
    /\ map event_command evs = DemoBisect.commit_commands repo i.
Proof.
  unfold DemoBisect.bad_commit, DemoBisect.and_then.
  destruct (exec0_succeeds (nth 0 (DemoBisect.commit_commands repo i) []) w)
    as (o1 & e1 & w1 & H1 & C1 & E1).
  rewrite H1.
  destruct (exec0_succeeds (nth 1 (DemoBisect.commit_commands repo i) []) w1)
    as (o2 & e2 & w2 & H2 & C2 & E2).
  rewrite H2.
  destruct (exec0_succeeds (nth 2 (DemoBisect.commit_commands repo i) []) w2)
    as (o3 & e3 & w3 & H3 & C3 & E3).
  rewrite H3.
  exists o3, [e1; e2; e3], w3. split; [reflexivity|]. split.
  - rewrite C3, C2, C1, <- !app_assoc. reflexivity.
  - cbn [map]. rewrite E1, E2, E3. reflexivity.
Qed.

Lemma bad_commits_succeed (rounds : list nat) :
  forall w : Machine.World St,
  exists evs w',
    DemoBisect.bad_commits self repo rounds w = (Ok tt, w')
    /\ Machine.console w' = Machine.console w ++ evs
    /\ map event_command evs
       = flat_map (DemoBisect.commit_commands repo) rounds.
Proof.
  induction rounds as [|i rounds IH]; intros w.
  - exists [], w. cbn. rewrite app_nil_r. auto.
  - cbn [DemoBisect.bad_commits flat_map].
    destruct (bad_commit_succeeds i w) as (out & evs1 & w1 & H1 & C1 & E1).
    rewrite H1.
    destruct (IH w1) as (evs2 & w2 & H2 & C2 & E2).
    exists (evs1 ++ evs2), w2. split; [exact H2|]. split.
    + rewrite C2, C1, <- app_assoc. reflexivity.
    + rewrite map_app, E1, E2. reflexivity.
Qed.

End DemoLoop.

(** X26. On a machine that is not interactive and on which every command
    exits with 0, the loop of [demo_bisect] completes, and what it logs,
    in order, are the twelve commands of its four rounds: for each round
    the line appended to [common/autoboot.c], [git add], and the commit. *)
Theorem add_bad_commits_dispatches_all
        (St : Type) (self : Machine.Machine St) (repo : str)
        (w : Machine.World St) :
  Machine._interactive self = false ->
  (forall (command : str) (h : LogStdoutHandler) (st : St),
      exists out h' st',
        Machine._exec self command h st = (Ok (0%Z, out), h', st')
        /\ ev_command h' = ev_command h) ->
  exists evs w',
    DemoBisect.add_bad_commits self repo w = (Ok tt, w')
    /\ Machine.console w' = Machine.console w ++ evs
    /\ map event_command evs
       = DemoBisect.commit_commands repo 0 ++ DemoBisect.commit_commands repo 1
           ++ DemoBisect.commit_commands repo 2
           ++ DemoBisect.commit_commands repo 3.
Proof.
  intros Hi Hall. unfold DemoBisect.add_bad_commits.
  destruct (@bad_commits_succeed St self repo Hi Hall (seq 0 4) w)
    as (evs & w' & H & C & E).
  exists evs, w'. split; [exact H|]. split; [exact C|].
  rewrite E. cbn [seq flat_map]. rewrite app_nil_r. reflexivity.
Qed.

Lemma add_bad_commits_dispatches_all_witness :
  exists evs w',
    DemoBisect.add_bad_commits quiet_machine (u "/work/uboot-bisect-demo")
                               quiet_world = (Ok tt, w')
    /\ Machine.console w' = Machine.console quiet_world ++ evs
    /\ map event_command evs
       = DemoBisect.commit_commands (u "/work/uboot-bisect-demo") 0
           ++ DemoBisect.commit_commands (u "/work/uboot-bisect-demo") 1
           ++ DemoBisect.commit_commands (u "/work/uboot-bisect-demo") 2
           ++ DemoBisect.commit_commands (u "/work/uboot-bisect-demo") 3.
Proof.
  apply add_bad_commits_dispatches_all.
  - reflexivity.
  - intros command h st. exists [], h, st. split; reflexivity.
Defined.
